(** * Orphan reconciler for parallel image/index trees

    A shallow embedding of [train/fix_unmatched_images.py] together with the
    properties of its key construction, directory listing, orphan
    computation, deletion loop and per-split report.

    Python [str] values are byte strings (UTF-8); the part of [pathlib] the
    script relies on is modelled after CPython 3.8-3.13 on POSIX.

    The filesystem is described twice.  The first description is a finite
    map from paths to kinds of entries, on which [stat] and the reading of
    a directory always return: it serves the properties of runs that
    complete.  The second one (module [Sys]) leaves the system calls open,
    each returning or raising an [OSError], and follows the exceptions
    through the script: it serves the properties that say when the script
    raises, and what it makes of a failed [unlink]. *)

From Stdlib Require Import Ascii.
From stdpp Require Import base strings list gmap sorting pretty.

Local Open Scope Z_scope.

(** ** Python strings *)

Module Str.

(** [c in s] *)
Fixpoint contains (c : ascii) (s : string) : bool :=
  match s with
  | "" => false
  | String a s' => bool_decide (a = c) || contains c s'
  end.

(** [s.rfind(c)]: index of the last occurrence of [c], [-1] when absent. *)
Fixpoint rfind (c : ascii) (s : string) : Z :=
  match s with
  | "" => -1
  | String a s' =>
      let i := rfind c s' in
      if bool_decide (0 ≤ i) then i + 1
      else if bool_decide (a = c) then 0 else -1
  end.

(** [len(s)] *)
Definition len (s : string) : Z := Z.of_nat (String.length s).

(** [s[:i]] for [0 <= i] *)
Fixpoint take (n : nat) (s : string) : string :=
  match n, s with
  | S n', String a s' => String a (take n' s')
  | _, _ => ""
  end.

(** [s[i:]] for [0 <= i] *)
Fixpoint drop (n : nat) (s : string) : string :=
  match n, s with
  | S n', String _ s' => drop n' s'
  | _, _ => s
  end.

(** [s.lower()] on the ASCII range; bytes outside [A-Z] are kept. *)
Definition lower_char (a : ascii) : ascii :=
  let n := N_of_ascii a in
  if bool_decide (65 ≤ n ∧ n ≤ 90)%N then ascii_of_N (n + 32) else a.

Fixpoint lower (s : string) : string :=
  match s with
  | "" => ""
  | String a s' => String (lower_char a) (lower s')
  end.

(** [s.split(sep)] for a one-character separator: never empty. *)
Fixpoint split (sep : ascii) (s : string) : list string :=
  match s with
  | "" => [""]
  | String a s' =>
      if bool_decide (a = sep) then "" :: split sep s'
      else match split sep s' with
           | w :: ws => String a w :: ws
           | [] => [String a ""]
           end
  end.

(** [sep.join(l)] *)
Fixpoint join (sep : string) (l : list string) : string :=
  match l with
  | [] => ""
  | [x] => x
  | x :: l' => x +:+ sep +:+ join sep l'
  end.

(** [s.startswith(c)] *)
Definition startswith (c : ascii) (s : string) : bool :=
  match s with
  | String a _ => bool_decide (a = c)
  | "" => false
  end.

End Str.

(** ** pathlib *)

(** A pure POSIX path: whether it is anchored at ["/"], and its components
  (separators, empty components and ["."] components are dropped when a
  string is parsed).  The implementation-defined ["//"] root is not
  distinguished from ["/"]. *)
Record Path := mkPath { absolute : bool; parts : list string }.

Global Instance Path_eq_dec : EqDecision Path.
Proof. solve_decision. Defined.

Global Instance Path_countable : Countable Path :=
  inj_countable' (λ p, (absolute p, parts p)) (λ '(a, l), mkPath a l)
                 (λ p, match p with mkPath _ _ => eq_refl end).

Module PurePath.

Definition keep_part (c : string) : bool :=
  negb (bool_decide (c = "")) && negb (bool_decide (c = ".")).

(** [Path(s)] *)
Definition of_string (s : string) : Path :=
  {| absolute := Str.startswith "/" s;
     parts := filter (λ c, keep_part c = true) (Str.split "/" s) |}.

(** [p / s] *)
Definition joinpath (p : Path) (s : string) : Path :=
  let q := of_string s in
  if absolute q then q
  else {| absolute := absolute p; parts := parts p ++ parts q |}.

(** [p.name] *)
Definition name (p : Path) : string := default "" (last (parts p)).

(** [p.stem]:
<<
    name = self.name
    i = name.rfind('.')
    if 0 < i < len(name) - 1: return name[:i]
    else: return name
>> *)
Definition stem (p : Path) : string :=
  let name := name p in
  let i := Str.rfind "." name in
  if bool_decide (0 < i ∧ i < Str.len name - 1)
  then Str.take (Z.to_nat i) name
  else name.

(** [str(p)] *)
Definition str (p : Path) : string :=
  if absolute p then "/" +:+ Str.join "/" (parts p)
  else match parts p with
       | [] => "."
       | _ => Str.join "/" (parts p)
       end.

(** [p.relative_to(other)]; [None] stands for the [ValueError]. *)
Definition relative_to (p other : Path) : option Path :=
  if bool_decide (absolute p = absolute other ∧
                  take (length (parts other)) (parts p) = parts other)
  then Some {| absolute := false;
               parts := drop (length (parts other)) (parts p) |}
  else None.

(** The directory an entry sits in, for a path with at least one part. *)
Definition parent (p : Path) : option Path :=
  match parts p with
  | [] => None
  | _ => Some {| absolute := absolute p; parts := removelast (parts p) |}
  end.

(** Paths compare by their component lists, the anchor first. *)
Definition cparts (p : Path) : list string :=
  if absolute p then "/" :: parts p else parts p.

Fixpoint parts_leb (l1 l2 : list string) : bool :=
  match l1, l2 with
  | [], _ => true
  | _ :: _, [] => false
  | a :: l1', b :: l2' =>
      if bool_decide (a = b) then parts_leb l1' l2' else String.leb a b
  end.

Definition le (p q : Path) : Prop := parts_leb (cparts p) (cparts q) = true.

Global Instance le_dec : RelDecision le.
Proof. intros p q. unfold le. apply _. Defined.

End PurePath.

Notation "p // s" := (PurePath.joinpath p s) (at level 40, left associativity).

(** ** The script: key construction *)

Definition build_key (name : string) (ignore_ext ignore_case : bool) : string :=
  let p := PurePath.of_string name in
  let key := if ignore_ext then PurePath.stem p else PurePath.name p in
  if ignore_case then Str.lower key else key.

(** ** The filesystem *)

(** What [stat] reports for a directory entry once symbolic links are
    followed.  [Dangling] is a link whose target is missing: it is listed by
    its directory but does not [exists()]. *)
Inductive kind := RegularFile | Directory | Special | Dangling.

Global Instance kind_eq_dec : EqDecision kind.
Proof. solve_decision. Defined.

(** [nodes] maps every entry of the tree to its kind; [deny] holds, for the
    entries the process may not remove, the text of the [OSError] that
    [unlink] raises on them. *)
Record filesystem := mkFS {
  nodes : gmap Path kind;
  deny : gmap Path string
}.

(** Result of a call that may raise: the value, or the text of the
    exception. *)
Inductive outcome (A : Type) : Type :=
| Ok (a : A)
| Raise (e : string).
Arguments Ok {A} a.
Arguments Raise {A} e.

Module FS.

(** [p.exists()] *)
Definition exists_ (st : filesystem) (p : Path) : bool :=
  match nodes st !! p with
  | Some Dangling | None => false
  | Some _ => true
  end.

(** [p.is_dir()] *)
Definition is_dir (st : filesystem) (p : Path) : bool :=
  match nodes st !! p with
  | Some Directory => true
  | _ => false
  end.

(** [p.is_file()] *)
Definition is_file (st : filesystem) (p : Path) : bool :=
  match nodes st !! p with
  | Some RegularFile => true
  | _ => false
  end.

(** [d.iterdir()]: the entries directly below [d], in no particular order. *)
Definition iterdir (st : filesystem) (d : Path) : list Path :=
  filter (λ p, PurePath.parent p = Some d) (elements (dom (nodes st))).

(** [p.unlink(missing_ok=True)]: the [FileNotFoundError] of a missing entry
    is suppressed; a present entry is removed unless it is denied or is a
    directory, in which case the [OSError] is raised and the tree is left as
    it was. *)
Definition unlink (st : filesystem) (p : Path) : outcome filesystem :=
  match nodes st !! p with
  | None => Ok st
  | Some k =>
      match deny st !! p with
      | Some e => Raise e
      | None =>
          match k with
          | Directory =>
              Raise ("[Errno 21] Is a directory: '" +:+ PurePath.str p +:+ "'")
          | _ => Ok {| nodes := delete p (nodes st); deny := deny st |}
          end
      end
  end.

End FS.

Local Close Scope Z_scope.

(** ** The script: listing, indexing, diffing, deleting *)

(** [stat] and the reading of a directory are total here: the tree is one
    the process may traverse. *)
Definition list_files (st : filesystem) (d : Path) : list Path :=
  if negb (FS.exists_ st d) || negb (FS.is_dir st d) then []
  else filter (λ p, FS.is_file st p = true) (FS.iterdir st d).

(** [m.setdefault(k, []).append(f)] for each file in turn. *)
Definition collect_keys_map (files : list Path) (ignore_ext ignore_case : bool)
  : gmap string (list Path) :=
  foldl (λ m f,
           let k := build_key (PurePath.name f) ignore_ext ignore_case in
           <[k := default [] (m !! k) ++ [f]]> m)
        ∅ files.

(** The two key sets are iterated in the order [elements] gives, which, as
    the iteration order of a Python [set], is left unspecified: the
    properties below are stated up to the order of the result. *)
Definition compute_orphans (image_map index_map : gmap string (list Path))
  : list Path * list Path :=
  let image_keys := dom image_map in
  let index_keys := dom index_map in
  let only_in_image := image_keys ∖ index_keys in
  let only_in_index := index_keys ∖ image_keys in
  let orphan_image_files :=
    k ← elements only_in_image; default [] (image_map !! k) in
  let orphan_index_files :=
    k ← elements only_in_index; default [] (index_map !! k) in
  (orphan_image_files, orphan_index_files).

Definition human_relpath (p root : Path) : string :=
  match PurePath.relative_to p root with
  | Some r => PurePath.str r
  | None => PurePath.str p
  end.

(** One round of the deletion loop: the entry [f"{f}: {e}"] is appended when
    [unlink] raises, the counter is bumped otherwise. *)
Definition delete_step (acc : filesystem * (nat * list string)) (f : Path)
  : filesystem * (nat * list string) :=
  let '(st, (deleted, errors)) := acc in
  match FS.unlink st f with
  | Ok st' => (st', (S deleted, errors))
  | Raise e => (st, (deleted, errors ++ [PurePath.str f +:+ ": " +:+ e]))
  end.

Definition delete_files (st : filesystem) (files : list Path)
  : filesystem * (nat * list string) :=
  foldl delete_step (st, (0, [])) files.

(** ** The script: the per-split report *)

Inductive side := Image | Index.

(** The lines [process_split] appends to [report_lines], with the values
    each f-string interpolates. *)
Inductive report_line :=
| LineSplitMissing (split rel : string)
| LineSubdirMissing (split image_dirname index_dirname : string)
| LineMissing (rel : string)
| LineScanned (split : string) (n_image n_index : nat)
| LineOrphans (s : side) (n : nat)
| LinePreview (rel : string)
| LineTotal (n : nat)
| LineDeleted (s : side) (deleted attempted : nat)
| LineDryRun.

(** The lines appended to [error_lines]. *)
Inductive error_line :=
| LineDeleteFailed (split : string) (s : side) (e : string).

Definition side_name (s : side) : string :=
  match s with Image => "image" | Index => "index" end.

Definition render (l : report_line) : string :=
  match l with
  | LineSplitMissing split rel =>
      "[" +:+ split +:+ "] ✖ split 目录不存在：" +:+ rel
  | LineSubdirMissing split image_dirname index_dirname =>
      "[" +:+ split +:+ "] ✖ 缺少子目录：需要 '" +:+ image_dirname
          +:+ "' 与 '" +:+ index_dirname +:+ "'"
  | LineMissing rel => "    - 缺少：" +:+ rel
  | LineScanned split n_image n_index =>
      "[" +:+ split +:+ "] ✔ 扫描完成：image=" +:+ pretty n_image
          +:+ "，index=" +:+ pretty n_index
  | LineOrphans s n =>
      "    - 仅在 " +:+ side_name s +:+ " 的孤儿文件：" +:+ pretty n
  | LinePreview rel => "        * " +:+ rel
  | LineTotal n => "        … 共 " +:+ pretty n +:+ " 个"
  | LineDeleted s deleted attempted =>
      "    - 删除 " +:+ side_name s +:+ " 孤儿：" +:+ pretty deleted
          +:+ "/" +:+ pretty attempted
  | LineDryRun => "    - 试运行（未删除）。使用 --delete 进行删除。"
  end.

Definition render_error (l : error_line) : string :=
  match l with
  | LineDeleteFailed split s e =>
      "[" +:+ split +:+ "] 删除失败（" +:+ side_name s +:+ "）: " +:+ e
  end.

(** [sorted(files)] *)
Definition sorted (files : list Path) : list Path :=
  merge_sort PurePath.le files.

(** The count line of one side, its preview and, past ten orphans, the
    line carrying their number. *)
Definition orphan_block (root : Path) (s : side) (orphans : list Path)
  : list report_line :=
  [LineOrphans s (length orphans)]
  ++ map (λ p, LinePreview (human_relpath p root)) (take 10 (sorted orphans))
  ++ (if bool_decide (10 < length orphans)
      then [LineTotal (length orphans)] else []).

(** The body of [process_split] up to its [return] statements: the final
    filesystem, [report_lines] and [error_lines]. *)
Definition process_split_lines (st : filesystem) (root : Path)
    (split image_dirname index_dirname : string)
    (ignore_ext ignore_case do_delete : bool)
  : filesystem * (list report_line * list error_line) :=
  let split_root := root // split in
  let image_dir := split_root // image_dirname in
  let index_dir := split_root // index_dirname in
  if negb (FS.exists_ st split_root) then
    (st, ([LineSplitMissing split (human_relpath split_root root)], []))
  else if negb (FS.exists_ st image_dir) || negb (FS.exists_ st index_dir) then
    (st, ([LineSubdirMissing split image_dirname index_dirname]
          ++ (if negb (FS.exists_ st image_dir)
              then [LineMissing (human_relpath image_dir root)] else [])
          ++ (if negb (FS.exists_ st index_dir)
              then [LineMissing (human_relpath index_dir root)] else []),
          []))
  else
    let image_files := list_files st image_dir in
    let index_files := list_files st index_dir in
    let image_map := collect_keys_map image_files ignore_ext ignore_case in
    let index_map := collect_keys_map index_files ignore_ext ignore_case in
    let '(orphan_img, orphan_idx) := compute_orphans image_map index_map in
    let report_lines :=
      [LineScanned split (length image_files) (length index_files)]
      ++ orphan_block root Image orphan_img
      ++ orphan_block root Index orphan_idx in
    if do_delete then
      let '(st1, (del_count_img, del_err_img)) := delete_files st orphan_img in
      let '(st2, (del_count_idx, del_err_idx)) := delete_files st1 orphan_idx in
      (st2,
       (report_lines
        ++ [LineDeleted Image del_count_img (length orphan_img);
            LineDeleted Index del_count_idx (length orphan_idx)],
        map (LineDeleteFailed split Image) del_err_img
        ++ map (LineDeleteFailed split Index) del_err_idx))
    else
      (st, (report_lines ++ [LineDryRun], [])).

(** [process_split]: both line lists joined with newlines. *)
Definition process_split (st : filesystem) (root : Path)
    (split image_dirname index_dirname : string)
    (ignore_ext ignore_case do_delete : bool)
  : filesystem * (string * string) :=
  let '(st', (report_lines, error_lines)) :=
    process_split_lines st root split image_dirname index_dirname
                        ignore_ext ignore_case do_delete in
  (st', (Str.join (String "010" "") (map render report_lines),
         Str.join (String "010" "") (map render_error error_lines))).

(** ** Names the listing can yield, and the key as the specification words it *)

(** A directory entry name: non-empty, without separator, and not the
    entry ["."] that denotes the directory itself. *)
Definition is_filename (s : string) : Prop :=
  s ≠ "" ∧ s ≠ "." ∧ Str.contains "/" s = false.

(** "Only the last dot-delimited suffix is stripped; a name with no dot is
    unchanged": the text from the last dot on is removed. *)
Definition spec_strip_suffix (name : string) : string :=
  let i := Str.rfind "." name in
  if bool_decide (0 ≤ i)%Z then Str.take (Z.to_nat i) name else name.

Definition spec_key (name : string) (ignore_ext ignore_case : bool) : string :=
  let key := if ignore_ext then spec_strip_suffix name else name in
  if ignore_case then Str.lower key else key.

(** ** Auxiliary notions and sample trees *)

(** The files of [m] filed under a key that [m'] lacks. *)
Definition only_in (m m' : gmap string (list Path)) : list Path :=
  k ← elements (dom m ∖ dom m'); default [] (m !! k).

(** The scenario of the specification: three images, three index files. *)
Definition scenario_dir (d : string) : Path :=
  mkPath true ["data"; "train"; d].
Definition scenario_images : list Path :=
  (λ n, scenario_dir "image" // n) <$> ["a.jpg"; "b.jpg"; "c.jpg"].
Definition scenario_indexes : list Path :=
  (λ n, scenario_dir "index" // n) <$> ["a.idx"; "b.idx"; "d.idx"].

(** The two orphan lists of a split: they exist once the split root and
    both of its subdirectories have been found. *)
Definition split_orphans (st : filesystem) (root : Path)
    (split image_dirname index_dirname : string)
    (ignore_ext ignore_case : bool) : option (list Path * list Path) :=
  let split_root := root // split in
  let image_dir := split_root // image_dirname in
  let index_dir := split_root // index_dirname in
  if negb (FS.exists_ st split_root) then None
  else if negb (FS.exists_ st image_dir) || negb (FS.exists_ st index_dir)
  then None
  else
    Some (compute_orphans
            (collect_keys_map (list_files st image_dir) ignore_ext ignore_case)
            (collect_keys_map (list_files st index_dir) ignore_ext ignore_case)).

(** The lines reported for a split up to the deletion step. *)
Definition scan_lines (st : filesystem) (root : Path)
    (split image_dirname index_dirname : string)
    (orphan_img orphan_idx : list Path) : list report_line :=
  [LineScanned split
     (length (list_files st (root // split // image_dirname)))
     (length (list_files st (root // split // index_dirname)))]
  ++ orphan_block root Image orphan_img
  ++ orphan_block root Index orphan_idx.

(** The tree of the scenario: three images against three index files; the
    index file [d.idx] may not be removed. *)
Definition scenario_fs : filesystem :=
  {| nodes := list_to_map
       ([(mkPath true ["data"], Directory);
         (mkPath true ["data"; "train"], Directory);
         (scenario_dir "image", Directory);
         (scenario_dir "index", Directory)]
        ++ ((λ p, (p, RegularFile)) <$> scenario_images)
        ++ ((λ p, (p, RegularFile)) <$> scenario_indexes));
     deny := {[ scenario_dir "index" // "d.idx" :=
                  "[Errno 13] Permission denied" ]} |}.

(** A split with eleven images and an empty index directory. *)
Definition crowded_fs : filesystem :=
  {| nodes := list_to_map
       ([(mkPath true ["data"], Directory);
         (mkPath true ["data"; "train"], Directory);
         (scenario_dir "image", Directory);
         (scenario_dir "index", Directory)]
        ++ ((λ n, (scenario_dir "image" // n, RegularFile))
              <$> ["00.jpg"; "01.jpg"; "02.jpg"; "03.jpg"; "04.jpg"; "05.jpg";
                   "06.jpg"; "07.jpg"; "08.jpg"; "09.jpg"; "10.jpg"]));
     deny := ∅ |}.

(** The key under which [collect_keys_map] files an entry. *)
Definition file_key (ignore_ext ignore_case : bool) (f : Path) : string :=
  build_key (PurePath.name f) ignore_ext ignore_case.

(** ** The script: the run over all splits *)

(** One round of the loop of [main]: the report is always kept, the error
    text only when it is not empty ([if err:]). *)
Definition main_step (root : Path) (image_dir index_dir : string)
    (delete ignore_ext ignore_case : bool)
    (acc : filesystem * (list string * list string)) (split : string)
  : filesystem * (list string * list string) :=
  let '(st, (all_reports, all_errors)) := acc in
  let '(st', (rep, err)) :=
    process_split st root split image_dir index_dir
                  ignore_ext ignore_case delete in
  (st', (all_reports ++ [rep],
         if bool_decide (err = "") then all_errors else all_errors ++ [err])).

Definition main_loop (st : filesystem) (root : Path) (splits : list string)
    (image_dir index_dir : string) (delete ignore_ext ignore_case : bool)
  : filesystem * (list string * list string) :=
  foldl (main_step root image_dir index_dir delete ignore_ext ignore_case)
        (st, ([], [])) splits.

(** What a run writes to its two streams. *)
Record output := mkOutput { stdout : string; stderr : string }.

(** [main] for parsed arguments and no [--log-file]; [root] is the resolved
    dataset root. *)
Definition main (st : filesystem) (root : Path) (splits : list string)
    (image_dir index_dir : string) (delete ignore_ext ignore_case : bool)
  : filesystem * output :=
  let nl := String "010" "" in
  let '(st', (all_reports, all_errors)) :=
    main_loop st root splits image_dir index_dir
              delete ignore_ext ignore_case in
  let final_report := Str.join nl all_reports in
  (st', {| stdout := final_report +:+ nl;
           stderr := match all_errors with
                     | [] => ""
                     | _ => nl +:+ "[错误汇总]" +:+ nl
                            +:+ Str.join nl all_errors +:+ nl
                     end |}).

(** ** System calls that may fail *)

(** The model above describes runs in which [stat] and the reading of a
    directory fail only because an entry is missing.  The definitions of
    this part follow the same lines of the script with the system calls
    behind [pathlib] left open: each call returns or raises an [OSError],
    and an exception the script does not catch ends the call that raised
    it. *)

(** An [OSError]: its [errno] and its text, [str(e)]. *)
Record OSError := mkOSError { errno : Z; text : string }.

Definition ENOENT : Z := 2.
Definition EBADF : Z := 9.
Definition EACCES : Z := 13.
Definition ENOTDIR : Z := 20.
Definition EISDIR : Z := 21.
Definition ENAMETOOLONG : Z := 36.
Definition ELOOP : Z := 40.

(** A value, or the exception that left the call. *)
Inductive result (A : Type) : Type :=
| Return (a : A)
| Raised (e : OSError).
Arguments Return {A} a.
Arguments Raised {A} e.

Global Instance OSError_eq_dec : EqDecision OSError.
Proof. solve_decision. Defined.

Global Instance result_eq_dec {A : Type} `{EqDecision A} :
  EqDecision (result A).
Proof. solve_decision. Defined.

(** Sequencing: an exception ends what follows. *)
Definition and_then {A B : Type} (m : result A) (k : A → result B) : result B :=
  match m with
  | Return a => k a
  | Raised e => Raised e
  end.

Notation "'call' x ← m ; k" := (and_then m (λ x, k))
  (at level 10, x name, m at level 100, k at level 200,
   format "'[v' 'call'  x  ←  m ; '/' k ']'").

(** What [S_ISREG] and [S_ISDIR] tell of the [st_mode] a [stat] returns. *)
Inductive filetype := S_IFREG | S_IFDIR | S_IFOTHER.

(** The calls behind [pathlib]: [os.stat] (which follows links),
    [os.listdir] and [os.unlink], on a state of the machine. *)
Class OS (fs : Type) := {
  os_stat : fs → Path → result filetype;
  os_listdir : fs → Path → result (list string);
  os_unlink : fs → Path → result fs
}.

Module Sys.

Section Calls.

Context {fs : Type} `{!OS fs}.

(** [_ignore_error(e)]: the errors [exists], [is_dir] and [is_file] turn
    into [False]. *)
Definition ignore_error (e : OSError) : bool :=
  bool_decide (errno e ∈ [ENOENT; ENOTDIR; EBADF; ELOOP]).

(** [p.exists()]:
<<
    try: self.stat()
    except OSError as e:
        if not _ignore_error(e): raise
        return False
    return True
>> *)
Definition exists_ (st : fs) (p : Path) : result bool :=
  match os_stat st p with
  | Return _ => Return true
  | Raised e => if ignore_error e then Return false else Raised e
  end.

(** [p.is_dir()] *)
Definition is_dir (st : fs) (p : Path) : result bool :=
  match os_stat st p with
  | Return t => Return (match t with S_IFDIR => true | _ => false end)
  | Raised e => if ignore_error e then Return false else Raised e
  end.

(** [p.is_file()] *)
Definition is_file (st : fs) (p : Path) : result bool :=
  match os_stat st p with
  | Return t => Return (match t with S_IFREG => true | _ => false end)
  | Raised e => if ignore_error e then Return false else Raised e
  end.

(** [d._make_child_relpath(name)] *)
Definition child (d : Path) (name : string) : Path :=
  {| absolute := absolute d; parts := parts d ++ [name] |}.

(** [d.iterdir()], read to its end:
<<
    for name in os.listdir(self):
        if name in {'.', '..'}: continue
        yield self._make_child_relpath(name)
>> *)
Definition iterdir (st : fs) (d : Path) : result (list Path) :=
  call names ← os_listdir st d;
  Return (child d <$> filter (λ name, name ∉ ["."; ".."]) names).

(** [p.unlink(missing_ok=True)]:
<<
    try: os.unlink(self)
    except FileNotFoundError:
        if not missing_ok: raise
>> *)
Definition unlink (st : fs) (p : Path) : result fs :=
  match os_unlink st p with
  | Return st' => Return st'
  | Raised e => if bool_decide (errno e = ENOENT) then Return st else Raised e
  end.

(** [[p for p in children if p.is_file()]] *)
Fixpoint regular_files (st : fs) (children : list Path) : result (list Path) :=
  match children with
  | [] => Return []
  | p :: children' =>
      call b ← is_file st p;
      call files ← regular_files st children';
      Return (if b : bool then p :: files else files)
  end.

Definition list_files (st : fs) (d : Path) : result (list Path) :=
  call e ← exists_ st d;
  call skip ← (if negb e then Return true else call b ← is_dir st d; Return (negb b));
  if skip : bool then Return []
  else call children ← iterdir st d; regular_files st children.

Definition delete_step (acc : fs * (nat * list string)) (f : Path)
  : fs * (nat * list string) :=
  let '(st, (deleted, errors)) := acc in
  match unlink st f with
  | Return st' => (st', (S deleted, errors))
  | Raised e => (st, (deleted, errors ++ [PurePath.str f +:+ ": " +:+ text e]))
  end.

(** [except Exception] catches every [OSError]: the loop itself never
    raises. *)
Definition delete_files (st : fs) (files : list Path)
  : fs * (nat * list string) :=
  foldl delete_step (st, (0, [])) files.

(** The tests of lines 89 and 93 and the two listings: [None] when one of
    the early returns is taken.  In [not a or not b] the second test is
    made only when the first one holds. *)
Definition scan (st : fs) (root : Path)
    (split image_dirname index_dirname : string)
  : result (option (list Path * list Path)) :=
  let split_root := root // split in
  let image_dir := split_root // image_dirname in
  let index_dir := split_root // index_dirname in
  call e ← exists_ st split_root;
  if negb e then Return None
  else
    call a ← exists_ st image_dir;
    call missing ← (if negb a then Return true
               else call b ← exists_ st index_dir; Return (negb b));
    if missing : bool then Return None
    else
      call image_files ← list_files st image_dir;
      call index_files ← list_files st index_dir;
      Return (Some (image_files, index_files)).

Definition process_split_lines (st : fs) (root : Path)
    (split image_dirname index_dirname : string)
    (ignore_ext ignore_case do_delete : bool)
  : result (fs * (list report_line * list error_line)) :=
  let split_root := root // split in
  let image_dir := split_root // image_dirname in
  let index_dir := split_root // index_dirname in
  call e ← exists_ st split_root;
  if negb e then
    Return (st, ([LineSplitMissing split (human_relpath split_root root)], []))
  else
    call a ← exists_ st image_dir;
    call missing ← (if negb a then Return true
               else call b ← exists_ st index_dir; Return (negb b));
    if missing : bool then
      call a' ← exists_ st image_dir;
      call b' ← exists_ st index_dir;
      Return (st,
            ([LineSubdirMissing split image_dirname index_dirname]
             ++ (if negb a' then [LineMissing (human_relpath image_dir root)]
                 else [])
             ++ (if negb b' then [LineMissing (human_relpath index_dir root)]
                 else []),
             []))
    else
      call image_files ← list_files st image_dir;
      call index_files ← list_files st index_dir;
      let image_map := collect_keys_map image_files ignore_ext ignore_case in
      let index_map := collect_keys_map index_files ignore_ext ignore_case in
      let '(orphan_img, orphan_idx) := compute_orphans image_map index_map in
      let report_lines :=
        [LineScanned split (length image_files) (length index_files)]
        ++ orphan_block root Image orphan_img
        ++ orphan_block root Index orphan_idx in
      if do_delete then
        let '(st1, (del_count_img, del_err_img)) :=
          delete_files st orphan_img in
        let '(st2, (del_count_idx, del_err_idx)) :=
          delete_files st1 orphan_idx in
        Return (st2,
              (report_lines
               ++ [LineDeleted Image del_count_img (length orphan_img);
                   LineDeleted Index del_count_idx (length orphan_idx)],
               map (LineDeleteFailed split Image) del_err_img
               ++ map (LineDeleteFailed split Index) del_err_idx))
      else
        Return (st, (report_lines ++ [LineDryRun], [])).

End Calls.

End Sys.

(** ** A sample machine *)

(** A tree together with the directories the process may not read.  Its
    calls refuse a name of more than 255 bytes and a path that runs through
    an entry which is not a directory, before they look the path up. *)
Record machine := mkMachine { tree : filesystem; unreadable : gset Path }.

(** ["x" * n] *)
Fixpoint repeat_x (n : nat) : string :=
  match n with
  | O => ""
  | S n' => String "x" (repeat_x n')
  end.

Definition name_too_long (p : Path) : bool :=
  bool_decide (Exists (λ c, 255 < String.length c) (parts p)).

(** Some entry strictly above [p] is there and is not a directory. *)
Definition through_non_directory (st : filesystem) (p : Path) : bool :=
  existsb (λ n, match nodes st !! mkPath (absolute p) (take n (parts p)) with
                | Some RegularFile | Some Special => true
                | _ => false
                end)
          (seq 1 (length (parts p) - 1)).

Definition os_error (code : Z) (reason : string) (p : Path) : OSError :=
  {| errno := code;
     text := "[Errno " +:+ pretty code +:+ "] " +:+ reason +:+ ": '"
             +:+ PurePath.str p +:+ "'" |}.

(** The checks every call makes on its path before the lookup. *)
Definition path_error (st : filesystem) (p : Path) : option OSError :=
  if name_too_long p then Some (os_error ENAMETOOLONG "File name too long" p)
  else if through_non_directory st p
  then Some (os_error ENOTDIR "Not a directory" p)
  else None.

Definition machine_stat (m : machine) (p : Path) : result filetype :=
  match path_error (tree m) p with
  | Some e => Raised e
  | None =>
      match nodes (tree m) !! p with
      | Some RegularFile => Return S_IFREG
      | Some Directory => Return S_IFDIR
      | Some Special => Return S_IFOTHER
      | Some Dangling | None =>
          Raised (os_error ENOENT "No such file or directory" p)
      end
  end.

Definition machine_listdir (m : machine) (d : Path) : result (list string) :=
  match path_error (tree m) d with
  | Some e => Raised e
  | None =>
      match nodes (tree m) !! d with
      | Some Directory =>
          if bool_decide (d ∈ unreadable m)
          then Raised (os_error EACCES "Permission denied" d)
          else Return (PurePath.name <$> FS.iterdir (tree m) d)
      | Some RegularFile | Some Special =>
          Raised (os_error ENOTDIR "Not a directory" d)
      | Some Dangling | None =>
          Raised (os_error ENOENT "No such file or directory" d)
      end
  end.

Definition machine_unlink (m : machine) (p : Path) : result machine :=
  match path_error (tree m) p with
  | Some e => Raised e
  | None =>
      match nodes (tree m) !! p with
      | None => Raised (os_error ENOENT "No such file or directory" p)
      | Some k =>
          match deny (tree m) !! p with
          | Some e => Raised {| errno := EACCES; text := e |}
          | None =>
              match k with
              | Directory => Raised (os_error EISDIR "Is a directory" p)
              | _ =>
                  Return {| tree := {| nodes := delete p (nodes (tree m));
                                       deny := deny (tree m) |};
                            unreadable := unreadable m |}
              end
          end
      end
  end.

Global Instance machine_os : OS machine :=
  {| os_stat := machine_stat;
     os_listdir := machine_listdir;
     os_unlink := machine_unlink |}.

(** The scenario tree, every directory readable; the same with an image
    directory that may not be read. *)
Definition scenario_machine : machine :=
  {| tree := scenario_fs; unreadable := ∅ |}.
Definition locked_machine : machine :=
  {| tree := scenario_fs; unreadable := {[ scenario_dir "image" ]} |}.

(** What the scenario machine lists in its two directories, and the
    orphans of these listings when extensions are ignored. *)
Definition scenario_listing : list Path * list Path :=
  (Sys.child (scenario_dir "image") <$> ["c.jpg"; "b.jpg"; "a.jpg"],
   Sys.child (scenario_dir "index") <$> ["d.idx"; "b.idx"; "a.idx"]).
Definition scenario_orphans : list Path * list Path :=
  compute_orphans (collect_keys_map scenario_listing.1 true false)
                  (collect_keys_map scenario_listing.2 true false).

(** * Properties *)

(** ** Strings *)

Section StrFacts.

Local Open Scope Z_scope.

Lemma app_cons (a : ascii) (s t : string) :
  String a s +:+ t = String a (s +:+ t).
Proof. reflexivity. Qed.

Lemma app_empty_l (t : string) : "" +:+ t = t.
Proof. reflexivity. Qed.

Lemma len_nonneg (s : string) : 0 ≤ Str.len s.
Proof. unfold Str.len. lia. Qed.

Lemma len_cons (a : ascii) (s : string) :
  Str.len (String a s) = Str.len s + 1.
Proof. unfold Str.len. simpl. lia. Qed.

Lemma len_zero (s : string) : Str.len s = 0 ↔ s = "".
Proof.
  destruct s as [|a s]; [done|].
  rewrite len_cons. pose proof (len_nonneg s). split; [lia|done].
Qed.

Lemma len_app (s t : string) : Str.len (s +:+ t) = Str.len s + Str.len t.
Proof.
  induction s as [|a s IH]; [rewrite app_empty_l; unfold Str.len; simpl; lia|].
  rewrite app_cons, !len_cons, IH. lia.
Qed.

Lemma contains_app (c : ascii) (s t : string) :
  Str.contains c (s +:+ t) = Str.contains c s || Str.contains c t.
Proof.
  induction s as [|a s IH]; [done|].
  rewrite app_cons. simpl. rewrite IH. by rewrite orb_assoc.
Qed.

Lemma rfind_absent (c : ascii) (s : string) :
  Str.contains c s = false → Str.rfind c s = -1.
Proof.
  induction s as [|a s IH]; [done|]. simpl.
  intros [Ha Hs]%orb_false_elim. rewrite (IH Hs), Ha. done.
Qed.

Lemma rfind_present (c : ascii) (s : string) :
  Str.contains c s = true → 0 ≤ Str.rfind c s.
Proof.
  induction s as [|a s IH]; [done|]. simpl.
  destruct (bool_decide (0 ≤ Str.rfind c s)) eqn:Hi.
  - apply bool_decide_eq_true in Hi. lia.
  - apply bool_decide_eq_false in Hi.
    destruct (Str.contains c s); [specialize (IH eq_refl); lia|].
    rewrite orb_false_r. intros ->. done.
Qed.

(** The last occurrence: nothing of [c] follows it. *)
Lemma rfind_last (c : ascii) (a e : string) :
  Str.contains c e = false → Str.rfind c (a +:+ String c e) = Str.len a.
Proof.
  intros He. induction a as [|x a IH].
  - rewrite app_empty_l. simpl. rewrite (rfind_absent _ _ He).
    repeat case_bool_decide; done || lia.
  - rewrite app_cons. simpl. rewrite IH, len_cons.
    rewrite bool_decide_eq_true_2; [done|apply len_nonneg].
Qed.

Lemma take_app (a t : string) : Str.take (String.length a) (a +:+ t) = a.
Proof.
  induction a as [|x a IH]; [by destruct t|].
  rewrite app_cons. simpl. by rewrite IH.
Qed.

Lemma take_len_app (a t : string) : Str.take (Z.to_nat (Str.len a)) (a +:+ t) = a.
Proof. unfold Str.len. rewrite Nat2Z.id. apply take_app. Qed.

Lemma split_absent (sep : ascii) (s : string) :
  Str.contains sep s = false → Str.split sep s = [s].
Proof.
  induction s as [|a s IH]; [done|]. simpl.
  intros [Ha Hs]%orb_false_elim. by rewrite Ha, (IH Hs).
Qed.

End StrFacts.

(** ** Paths *)

Section PathFacts.

Lemma of_string_filename (s : string) :
  is_filename s → PurePath.of_string s = mkPath false [s].
Proof.
  intros (Hne & Hdot & Hsep). unfold PurePath.of_string.
  rewrite (split_absent _ _ Hsep). f_equal.
  - destruct s as [|a s]; [done|]. simpl in *.
    by apply orb_false_elim in Hsep as [-> _].
  - rewrite filter_cons_True; [done|]. unfold PurePath.keep_part.
    by rewrite !bool_decide_eq_false_2.
Qed.

Lemma name_of_filename (s : string) :
  is_filename s → PurePath.name (PurePath.of_string s) = s.
Proof. intros H. by rewrite (of_string_filename _ H). Qed.

(** [stem] of a one-component path, split at its last dot. *)
Lemma stem_last_dot (absl : bool) (a e : string) :
  Str.contains "." e = false →
  PurePath.stem (mkPath absl [a +:+ "." +:+ e]) =
    if bool_decide (a = "" ∨ e = "") then a +:+ "." +:+ e else a.
Proof.
  intros He. unfold PurePath.stem, PurePath.name. simpl.
  change ("." +:+ e) with (String "." e).
  rewrite (rfind_last _ a e He), len_app, len_cons.
  pose proof (len_nonneg a) as Ha0. pose proof (len_nonneg e) as He0.
  case_bool_decide as Hi; case_bool_decide as Hae; try done.
  - destruct Hae as [-> | ->]; unfold Str.len in Hi; simpl in Hi; lia.
  - by rewrite take_len_app.
  - exfalso. apply Hi.
    assert (Str.len a ≠ 0%Z) by (rewrite len_zero; tauto).
    assert (Str.len e ≠ 0%Z) by (rewrite len_zero; tauto). lia.
Qed.

Lemma stem_no_dot (absl : bool) (s : string) :
  Str.contains "." s = false → PurePath.stem (mkPath absl [s]) = s.
Proof.
  intros Hs. unfold PurePath.stem, PurePath.name. simpl.
  rewrite (rfind_absent _ _ Hs). by rewrite bool_decide_eq_false_2 by lia.
Qed.

End PathFacts.

(** ** Key construction *)

Lemma build_key_filename (name : string) (ignore_ext ignore_case : bool) :
  is_filename name →
  build_key name ignore_ext ignore_case =
    let key := if ignore_ext then PurePath.stem (mkPath false [name]) else name in
    if ignore_case then Str.lower key else key.
Proof.
  intros H. unfold build_key. rewrite (of_string_filename _ H).
  by destruct ignore_ext.
Qed.

Lemma is_filename_app_dot (a e : string) :
  Str.contains "/" a = false → Str.contains "/" e = false → e ≠ "" →
  is_filename (a +:+ "." +:+ e).
Proof.
  intros Ha He Hne. repeat split.
  - by destruct a.
  - destruct a as [|x [|y a]]; [|by destruct e|done].
    rewrite app_empty_l. destruct e; [done|discriminate].
  - rewrite !contains_app, Ha, He. done.
Qed.

(** C4, as amended.  For every file name and both flags, [build_key] folds
    case after it has stripped the extension; without [ignore_ext] the key
    is the name; with it, a name without a dot is kept, and a name cut at
    its last dot as [a.e] yields [a] unless [a] or [e] is empty, in which
    case (leading dot only, or trailing dot) the name is kept whole; and
    ["A.PNG"] with both flags yields ["a"]. *)
Theorem build_key_strip_then_fold
    (name : string) (ignore_ext ignore_case : bool) :
  is_filename name →
  build_key name ignore_ext ignore_case
    = (if ignore_case then Str.lower (build_key name ignore_ext false)
       else build_key name ignore_ext false)
  ∧ build_key name false false = name
  ∧ (Str.contains "." name = false → build_key name true false = name)
  ∧ (∀ a e : string,
       name = a +:+ "." +:+ e → Str.contains "." e = false →
       build_key name true false
         = if bool_decide (a = "" ∨ e = "") then name else a)
  ∧ build_key "A.PNG" true true = "a".
Proof.
  intros Hname. rewrite !(build_key_filename _ _ _ Hname). simpl.
  split_and!; try done.
  - apply stem_no_dot.
  - intros a e -> He. by apply stem_last_dot.
Qed.

Lemma build_key_strip_then_fold_witness :
  is_filename "A.PNG"
  ∧ build_key "A.PNG" true true = Str.lower (build_key "A.PNG" true false).
Proof.
  assert (is_filename "A.PNG") as H by (repeat split; done).
  split; [exact H|].
  exact (proj1 (build_key_strip_then_fold "A.PNG" true true H)).
Defined.

(** C4, as stated, fails on names whose last dot is their first or last
    character: stripping the final dot-delimited suffix would leave [""] of
    [".bashrc"] and ["a"] of ["a."], while the key is the whole name. *)
Lemma build_key_keeps_leading_dot_name :
  is_filename ".bashrc"
  ∧ build_key ".bashrc" true false = ".bashrc"
  ∧ spec_key ".bashrc" true false = ""
  ∧ is_filename "a."
  ∧ build_key "a." true false = "a."
  ∧ spec_key "a." true false = "a"
  ∧ ¬ (∀ name ignore_ext ignore_case, is_filename name →
         build_key name ignore_ext ignore_case
           = spec_key name ignore_ext ignore_case).
Proof.
  assert (is_filename ".bashrc") as H by (repeat split; done).
  split_and!; try done.
  intros Hall. specialize (Hall ".bashrc" true false H). discriminate Hall.
Qed.

(** C9, as amended.  With [ignore_ext], two file names [a.e1] and [a.e2]
    with the same non-empty base [a] and non-empty, dot-free extensions get
    the same key under either setting of [ignore_case]: the key of [a]. *)
Theorem build_key_same_base (a e1 e2 : string) (ignore_case : bool) :
  a ≠ "" → Str.contains "/" a = false →
  e1 ≠ "" → Str.contains "." e1 = false → Str.contains "/" e1 = false →
  e2 ≠ "" → Str.contains "." e2 = false → Str.contains "/" e2 = false →
  build_key (a +:+ "." +:+ e1) true ignore_case
    = build_key (a +:+ "." +:+ e2) true ignore_case
  ∧ build_key (a +:+ "." +:+ e1) true ignore_case
    = if ignore_case then Str.lower a else a.
Proof.
  intros Ha Has H1 H1d H1s H2 H2d H2s.
  assert (∀ e, e ≠ "" → Str.contains "." e = false →
               Str.contains "/" e = false →
               build_key (a +:+ "." +:+ e) true ignore_case
               = if ignore_case then Str.lower a else a) as Hkey.
  { intros e He Hed Hes.
    rewrite build_key_filename by by apply is_filename_app_dot.
    simpl. rewrite (stem_last_dot _ _ _ Hed).
    rewrite bool_decide_eq_false_2 by tauto. done. }
  rewrite !Hkey by done. done.
Qed.

Lemma build_key_same_base_witness :
  build_key ("a" +:+ "." +:+ "jpg") true true
    = build_key ("a" +:+ "." +:+ "idx") true true.
Proof.
  exact (proj1 (build_key_same_base "a" "jpg" "idx" true
                  ltac:(done) eq_refl ltac:(done) eq_refl eq_refl
                  ltac:(done) eq_refl eq_refl)).
Defined.

(** C9, as stated, fails when the base is empty (hidden files), when an
    extension is empty, and when an extension itself holds a dot. *)
Lemma same_base_keys_may_differ :
  build_key ("" +:+ "." +:+ "jpg") true false
    ≠ build_key ("" +:+ "." +:+ "png") true false
  ∧ build_key ("a" +:+ "." +:+ "") true false
    ≠ build_key ("a" +:+ "." +:+ "png") true false
  ∧ build_key ("x" +:+ "." +:+ "tar.gz") true false
    ≠ build_key ("x" +:+ "." +:+ "zip") true false.
Proof. split_and!; discriminate. Qed.

(** ** Directory listing *)

Section Listing.

Implicit Types (st : filesystem) (d p : Path).

Lemma elem_of_iterdir st d p :
  p ∈ FS.iterdir st d ↔ PurePath.parent p = Some d ∧ is_Some (nodes st !! p).
Proof.
  unfold FS.iterdir.
  rewrite list_elem_of_filter, elem_of_elements, elem_of_dom. tauto.
Qed.

Lemma NoDup_iterdir st d : NoDup (FS.iterdir st d).
Proof. apply NoDup_filter, NoDup_elements. Qed.

Lemma is_dir_exists st d : FS.is_dir st d = true → FS.exists_ st d = true.
Proof.
  unfold FS.is_dir, FS.exists_. by destruct (nodes st !! d) as [[]|].
Qed.

Lemma is_file_spec st p :
  FS.is_file st p = true ↔ nodes st !! p = Some RegularFile.
Proof.
  unfold FS.is_file. destruct (nodes st !! p) as [[]|]; naive_solver.
Qed.

Lemma list_files_dir st d :
  FS.is_dir st d = true →
  list_files st d = filter (λ p, FS.is_file st p = true) (FS.iterdir st d).
Proof.
  intros Hd. unfold list_files. by rewrite (is_dir_exists _ _ Hd), Hd.
Qed.

Lemma NoDup_list_files st d : NoDup (list_files st d).
Proof.
  unfold list_files. case_match; [constructor|].
  apply NoDup_filter, NoDup_iterdir.
Qed.

End Listing.

(** ** Orphan computation *)

Section Orphans.

Implicit Types m image_map index_map : gmap string (list Path).

Lemma compute_orphans_only_in image_map index_map :
  compute_orphans image_map index_map
  = (only_in image_map index_map, only_in index_map image_map).
Proof. reflexivity. Qed.

Lemma elem_of_only_in m m' (f : Path) :
  f ∈ only_in m m' ↔
  ∃ k files, m !! k = Some files ∧ m' !! k = None ∧ f ∈ files.
Proof.
  unfold only_in. rewrite list_elem_of_bind. split.
  - intros (k & Hf & Hk). rewrite elem_of_elements, elem_of_difference in Hk.
    destruct Hk as [[files Hm]%elem_of_dom Hm'%not_elem_of_dom].
    rewrite Hm in Hf. by exists k, files.
  - intros (k & files & Hm & Hm' & Hf). exists k. rewrite Hm. split; [done|].
    rewrite elem_of_elements, elem_of_difference.
    split; [by apply elem_of_dom|by apply not_elem_of_dom].
Qed.

Lemma only_in_keys m m' :
  elements (dom m ∖ dom m')
  ≡ₚ (map_to_list (filter (λ kv, m' !! kv.1 = None) m)).*1.
Proof.
  apply NoDup_Permutation.
  - apply NoDup_elements.
  - apply NoDup_fst_map_to_list.
  - intros k. rewrite elem_of_elements, elem_of_difference, list_elem_of_fmap.
    split.
    + intros [[v Hv]%elem_of_dom Hk%not_elem_of_dom]. exists (k, v).
      split; [done|]. apply elem_of_map_to_list.
      by apply map_lookup_filter_Some.
    + intros ([k' v] & -> & Hkv%elem_of_map_to_list).
      apply map_lookup_filter_Some in Hkv as [Hv Hk]. simpl in *.
      split; [by apply elem_of_dom|by apply not_elem_of_dom].
Qed.

Lemma bind_lookup_values m (l : list (string * list Path)) :
  Forall (λ kv, m !! kv.1 = Some kv.2) l →
  (k ← l.*1; default [] (m !! k)) = mjoin (l.*2).
Proof.
  induction 1 as [|[k v] l Hkv _ IH]; [done|].
  csimpl in *. by rewrite Hkv, IH.
Qed.

(** The orphans of one side are the value lists of its map, restricted to
    the keys the other map lacks, laid end to end. *)
Lemma only_in_flatten m m' :
  only_in m m'
  ≡ₚ mjoin ((map_to_list (filter (λ kv, m' !! kv.1 = None) m)).*2).
Proof.
  unfold only_in. rewrite only_in_keys. rewrite bind_lookup_values; [done|].
  apply Forall_forall. intros [k v] Hkv%elem_of_map_to_list.
  by apply map_lookup_filter_Some in Hkv as [Hv _].
Qed.

End Orphans.

(** C1.  Each component of [compute_orphans] holds exactly the files filed,
    in that side's map, under a key the other map lacks; it is the
    concatenation of the value lists of those keys; and on the scenario
    [{a.jpg, b.jpg, c.jpg}] against [{a.idx, b.idx, d.idx}] with
    [ignore_ext] it yields [c.jpg] and [d.idx]. *)
Theorem compute_orphans_exact (image_map index_map : gmap string (list Path)) :
  (∀ f, f ∈ (compute_orphans image_map index_map).1 ↔
        ∃ k files, image_map !! k = Some files ∧ index_map !! k = None
                   ∧ f ∈ files)
  ∧ (∀ f, f ∈ (compute_orphans image_map index_map).2 ↔
        ∃ k files, index_map !! k = Some files ∧ image_map !! k = None
                   ∧ f ∈ files)
  ∧ (compute_orphans image_map index_map).1
    ≡ₚ mjoin ((map_to_list
                 (filter (λ kv, index_map !! kv.1 = None) image_map)).*2)
  ∧ (compute_orphans image_map index_map).2
    ≡ₚ mjoin ((map_to_list
                 (filter (λ kv, image_map !! kv.1 = None) index_map)).*2)
  ∧ list_files scenario_fs (scenario_dir "image") ≡ₚ scenario_images
  ∧ list_files scenario_fs (scenario_dir "index") ≡ₚ scenario_indexes
  ∧ (∀ ignore_case,
       compute_orphans
         (collect_keys_map (list_files scenario_fs (scenario_dir "image"))
                           true ignore_case)
         (collect_keys_map (list_files scenario_fs (scenario_dir "index"))
                           true ignore_case)
       = ([scenario_dir "image" // "c.jpg"],
          [scenario_dir "index" // "d.idx"])).
Proof.
  rewrite compute_orphans_only_in. simpl. split_and!.
  - intros f. apply elem_of_only_in.
  - intros f. apply elem_of_only_in.
  - apply only_in_flatten.
  - apply only_in_flatten.
  - apply (bool_decide_unpack _). vm_compute. exact I.
  - apply (bool_decide_unpack _). vm_compute. exact I.
  - intros []; vm_compute; reflexivity.
Qed.

(** C8.  Swapping the two maps swaps the two orphan lists: each list of
    [(m1, m2)] has the same elements, with the same multiplicities, as the
    other list of [(m2, m1)]. *)
Theorem compute_orphans_swap (m1 m2 : gmap string (list Path)) :
  (compute_orphans m1 m2).1 ≡ₚ (compute_orphans m2 m1).2
  ∧ (compute_orphans m1 m2).2 ≡ₚ (compute_orphans m2 m1).1
  ∧ (∀ f, f ∈ (compute_orphans m1 m2).1 ↔ f ∈ (compute_orphans m2 m1).2)
  ∧ (∀ f, f ∈ (compute_orphans m1 m2).2 ↔ f ∈ (compute_orphans m2 m1).1).
Proof.
  rewrite !compute_orphans_only_in. simpl. split_and!; try done.
Qed.

(** ** Deletion *)

Section Deletion.

Implicit Types (st : filesystem) (f : Path) (files : list Path).

(** The loop from any intermediate accumulator. *)
Lemma delete_loop_acc files st (n : nat) (es : list string) :
  foldl delete_step (st, (n, es)) files
  = let r := delete_files st files in (r.1, (n + r.2.1, es ++ r.2.2)).
Proof.
  unfold delete_files. revert st n es.
  induction files as [|f files IH]; intros st n es; simpl.
  - by rewrite Nat.add_0_r, app_nil_r.
  - destruct (FS.unlink st f) as [st'|e]; rewrite IH; symmetry; rewrite IH;
      simpl; f_equal; f_equal; [lia|by rewrite <- app_assoc].
Qed.

Lemma delete_files_nil st : delete_files st [] = (st, (0, [])).
Proof. reflexivity. Qed.

Lemma delete_files_cons st f files :
  delete_files st (f :: files)
  = match FS.unlink st f with
    | Ok st' =>
        let r := delete_files st' files in (r.1, (S r.2.1, r.2.2))
    | Raise e =>
        let r := delete_files st files in
        (r.1, (r.2.1, (PurePath.str f +:+ ": " +:+ e) :: r.2.2))
    end.
Proof.
  unfold delete_files at 1. simpl.
  destruct (FS.unlink st f) as [st'|e]; by rewrite delete_loop_acc.
Qed.

Lemma delete_files_app st (l1 l2 : list Path) :
  delete_files st (l1 ++ l2)
  = let r1 := delete_files st l1 in
    let r2 := delete_files r1.1 l2 in
    (r2.1, (r1.2.1 + r2.2.1, r1.2.2 ++ r2.2.2)).
Proof.
  unfold delete_files at 1. rewrite foldl_app.
  fold (delete_files st l1).
  destruct (delete_files st l1) as [st1 [n1 es1]]. simpl.
  by rewrite delete_loop_acc.
Qed.

Lemma delete_files_count st files :
  (delete_files st files).2.1 + length (delete_files st files).2.2
  = length files.
Proof.
  revert st. induction files as [|f files IH]; intros st; [done|].
  rewrite delete_files_cons.
  destruct (FS.unlink st f) as [st'|e]; simpl.
  - by rewrite <- (IH st').
  - rewrite <- (IH st). lia.
Qed.

End Deletion.

(** C10.  The count returned by [delete_files] and the number of its error
    entries add up to the number of files passed in. *)
Theorem delete_files_accounts_for_all (st : filesystem) (files : list Path) :
  let '(_, (deleted, errors)) := delete_files st files in
  deleted + length errors = length files.
Proof.
  pose proof (delete_files_count st files) as H.
  by destruct (delete_files st files) as [st' [deleted errors]].
Qed.

(** ** Split processing *)

Section SplitProcessing.

Context (st : filesystem) (root : Path).
Context (split image_dirname index_dirname : string).
Context (ignore_ext ignore_case : bool).

Let split_root := root // split.
Let image_dir := split_root // image_dirname.
Let index_dir := split_root // index_dirname.

Lemma split_orphans_Some (orphan_img orphan_idx : list Path) :
  split_orphans st root split image_dirname index_dirname
                ignore_ext ignore_case = Some (orphan_img, orphan_idx) ↔
  FS.exists_ st split_root = true ∧ FS.exists_ st image_dir = true
  ∧ FS.exists_ st index_dir = true
  ∧ compute_orphans
      (collect_keys_map (list_files st image_dir) ignore_ext ignore_case)
      (collect_keys_map (list_files st index_dir) ignore_ext ignore_case)
    = (orphan_img, orphan_idx).
Proof.
  unfold split_orphans. fold split_root. fold image_dir. fold index_dir.
  destruct (FS.exists_ st split_root), (FS.exists_ st image_dir),
    (FS.exists_ st index_dir); simpl;
    (split;
     [intros H; try discriminate H; split_and!; try done;
      by apply (inj Some) in H
     |intros (? & ? & ? & H); try done; by rewrite H]).
Qed.

Lemma process_split_lines_scanned
    (do_delete : bool) (orphan_img orphan_idx : list Path) :
  split_orphans st root split image_dirname index_dirname
                ignore_ext ignore_case = Some (orphan_img, orphan_idx) →
  process_split_lines st root split image_dirname index_dirname
                      ignore_ext ignore_case do_delete
  = let report_lines :=
      scan_lines st root split image_dirname index_dirname
                 orphan_img orphan_idx in
    if do_delete then
      let r1 := delete_files st orphan_img in
      let r2 := delete_files r1.1 orphan_idx in
      (r2.1,
       (report_lines
        ++ [LineDeleted Image r1.2.1 (length orphan_img);
            LineDeleted Index r2.2.1 (length orphan_idx)],
        (LineDeleteFailed split Image <$> r1.2.2)
        ++ (LineDeleteFailed split Index <$> r2.2.2)))
    else (st, (report_lines ++ [LineDryRun], [])).
Proof.
  intros (Hs & Hi & Hx & Ho)%split_orphans_Some.
  unfold process_split_lines, scan_lines.
  fold split_root. fold image_dir. fold index_dir.
  rewrite Hs, Hi, Hx, Ho. simpl.
  destruct do_delete; [|done].
  destruct (delete_files st orphan_img) as [st1 [n1 e1]]. simpl.
  by destruct (delete_files st1 orphan_idx) as [st2 [n2 e2]].
Qed.

Lemma process_split_lines_no_split (do_delete : bool) :
  FS.exists_ st split_root = false →
  process_split_lines st root split image_dirname index_dirname
                      ignore_ext ignore_case do_delete
  = (st, ([LineSplitMissing split (human_relpath split_root root)], [])).
Proof.
  intros Hs. unfold process_split_lines. fold split_root. by rewrite Hs.
Qed.

Lemma process_split_lines_no_subdir (do_delete : bool) :
  FS.exists_ st split_root = true →
  FS.exists_ st image_dir = false ∨ FS.exists_ st index_dir = false →
  process_split_lines st root split image_dirname index_dirname
                      ignore_ext ignore_case do_delete
  = (st,
     (LineSubdirMissing split image_dirname index_dirname
      :: (if FS.exists_ st image_dir then []
          else [LineMissing (human_relpath image_dir root)])
      ++ (if FS.exists_ st index_dir then []
          else [LineMissing (human_relpath index_dir root)]),
      [])).
Proof.
  intros Hs Hsub. unfold process_split_lines.
  fold split_root. fold image_dir. fold index_dir. rewrite Hs. simpl.
  destruct (FS.exists_ st image_dir), (FS.exists_ st index_dir);
    simpl; try done.
  by destruct Hsub.
Qed.

End SplitProcessing.

Lemma split_orphans_None (st : filesystem) (root : Path)
    (split image_dirname index_dirname : string)
    (ignore_ext ignore_case : bool) :
  split_orphans st root split image_dirname index_dirname
                ignore_ext ignore_case = None ↔
  FS.exists_ st (root // split) = false
  ∨ FS.exists_ st (root // split) = true
    ∧ (FS.exists_ st (root // split // image_dirname) = false
       ∨ FS.exists_ st (root // split // index_dirname) = false).
Proof.
  unfold split_orphans.
  destruct (FS.exists_ st (root // split)),
    (FS.exists_ st (root // split // image_dirname)),
    (FS.exists_ st (root // split // index_dirname)); simpl;
    (split; [intros H; try discriminate H; tauto | intros H]);
    try done; destruct H as [H | [_ [H | H]]]; discriminate H.
Qed.




(** ** The order of paths *)

Section PathOrder.

Lemma string_leb_trans (a b c : string) :
  String.leb a b = true → String.leb b c = true → String.leb a c = true.
Proof.
  intros H1%Is_true_true H2%Is_true_true. apply Is_true_true.
  exact (transitivity (R := String.le) H1 H2).
Qed.

Lemma string_leb_antisym (a b : string) :
  String.leb a b = true → String.leb b a = true → a = b.
Proof.
  intros H1%Is_true_true H2%Is_true_true.
  exact (anti_symm String.le a b H1 H2).
Qed.

Lemma parts_leb_total (l1 l2 : list string) :
  PurePath.parts_leb l1 l2 = true ∨ PurePath.parts_leb l2 l1 = true.
Proof.
  revert l2. induction l1 as [|a l1 IH]; intros [|b l2]; simpl; auto.
  case_bool_decide as Hab.
  - subst b. rewrite bool_decide_eq_true_2 by done. apply IH.
  - rewrite bool_decide_eq_false_2 by congruence. apply String.leb_total.
Qed.

Lemma parts_leb_trans (l1 l2 l3 : list string) :
  PurePath.parts_leb l1 l2 = true → PurePath.parts_leb l2 l3 = true →
  PurePath.parts_leb l1 l3 = true.
Proof.
  revert l2 l3.
  induction l1 as [|a l1 IH]; intros [|b l2] [|c l3]; simpl; try done.
  case_bool_decide as Hab; case_bool_decide as Hbc; case_bool_decide as Hac;
    subst; try done; try congruence.
  - apply IH.
  - intros H1 H2. destruct Hab. by apply string_leb_antisym.
  - apply string_leb_trans.
Qed.

Global Instance path_le_total : Total PurePath.le.
Proof. intros p q. apply parts_leb_total. Qed.

Global Instance path_le_trans : Transitive PurePath.le.
Proof. intros p q r. apply parts_leb_trans. Qed.

Lemma sorted_perm (files : list Path) : sorted files ≡ₚ files.
Proof. apply merge_sort_Permutation. Qed.

Lemma sorted_strongly (files : list Path) :
  StronglySorted PurePath.le (sorted files).
Proof. apply StronglySorted_merge_sort; apply _. Qed.

End PathOrder.

(** ** The report of a scanned split *)

Lemma orphan_block_preview (root : Path) (s : side) (orphans : list Path) :
  ∃ preview rest : list Path,
    orphan_block root s orphans
    = LineOrphans s (length orphans)
      :: ((λ p, LinePreview (human_relpath p root)) <$> preview)
      ++ (if bool_decide (10 < length orphans)
          then [LineTotal (length orphans)] else [])
    ∧ preview ++ rest ≡ₚ orphans
    ∧ StronglySorted PurePath.le (preview ++ rest)
    ∧ length preview = min 10 (length orphans)
    ∧ length rest = length orphans - 10.
Proof.
  exists (take 10 (sorted orphans)), (drop 10 (sorted orphans)).
  rewrite take_drop. split_and!.
  - done.
  - apply sorted_perm.
  - apply sorted_strongly.
  - by rewrite length_take, (Permutation_length (sorted_perm orphans)).
  - by rewrite length_drop, (Permutation_length (sorted_perm orphans)).
Qed.

(** C5, as amended.  For a split whose scan succeeds the report starts
    with the number of files listed on each side, followed for each side
    by its number of orphans and a preview: the first ten, at most, of the
    orphan paths in sorted order; when a side has more than ten orphans,
    the preview is followed by a line carrying the total number of its
    orphans. *)
Theorem process_split_reports_scan
    (st : filesystem) (root : Path)
    (split image_dirname index_dirname : string)
    (ignore_ext ignore_case do_delete : bool)
    (orphan_img orphan_idx : list Path) :
  split_orphans st root split image_dirname index_dirname
                ignore_ext ignore_case = Some (orphan_img, orphan_idx) →
  let r := process_split_lines st root split image_dirname index_dirname
                               ignore_ext ignore_case do_delete in
  (∃ act_lines,
     r.2.1 = LineScanned split
               (length (list_files st (root // split // image_dirname)))
               (length (list_files st (root // split // index_dirname)))
             :: orphan_block root Image orphan_img
             ++ orphan_block root Index orphan_idx
             ++ act_lines)
  ∧ (∀ s orphans, ∃ preview rest : list Path,
       orphan_block root s orphans
       = LineOrphans s (length orphans)
         :: ((λ p, LinePreview (human_relpath p root)) <$> preview)
         ++ (if bool_decide (10 < length orphans)
             then [LineTotal (length orphans)] else [])
       ∧ preview ++ rest ≡ₚ orphans
       ∧ StronglySorted PurePath.le (preview ++ rest)
       ∧ length preview = min 10 (length orphans)
       ∧ length rest = length orphans - 10).
Proof.
  intros Ho r. subst r.
  rewrite (process_split_lines_scanned _ _ _ _ _ _ _ do_delete _ _ Ho).
  split; [|intros s orphans; apply orphan_block_preview].
  unfold scan_lines. destruct do_delete; cbv zeta; cbn [fst snd]; eexists;
    rewrite <- !app_assoc; reflexivity.
Qed.

Lemma process_split_reports_scan_witness :
  ∃ act_lines,
    (process_split_lines scenario_fs (mkPath true ["data"])
                         "train" "image" "index" true false false).2.1
    = LineScanned "train"
        (length (list_files scenario_fs
                   (mkPath true ["data"] // "train" // "image")))
        (length (list_files scenario_fs
                   (mkPath true ["data"] // "train" // "index")))
      :: orphan_block (mkPath true ["data"]) Image
           [scenario_dir "image" // "c.jpg"]
      ++ orphan_block (mkPath true ["data"]) Index
           [scenario_dir "index" // "d.idx"]
      ++ act_lines.
Proof.
  assert (split_orphans scenario_fs (mkPath true ["data"])
                        "train" "image" "index" true false
          = Some ([scenario_dir "image" // "c.jpg"],
                  [scenario_dir "index" // "d.idx"])) as H
    by (vm_compute; reflexivity).
  exact (proj1 (process_split_reports_scan _ _ _ _ _ _ _ false _ _ H)).
Defined.

(** C5, as stated, fails on the content of the extra line: with eleven
    orphans, one lies beyond the preview, and the line that follows the
    preview carries 11, the total; no line of the report carries 1. *)
Lemma process_split_overflow_line_is_total :
  (process_split_lines crowded_fs (mkPath true ["data"])
                       "train" "image" "index" false false false).2.1
  = [LineScanned "train" 11 0;
     LineOrphans Image 11;
     LinePreview "train/image/00.jpg"; LinePreview "train/image/01.jpg";
     LinePreview "train/image/02.jpg"; LinePreview "train/image/03.jpg";
     LinePreview "train/image/04.jpg"; LinePreview "train/image/05.jpg";
     LinePreview "train/image/06.jpg"; LinePreview "train/image/07.jpg";
     LinePreview "train/image/08.jpg"; LinePreview "train/image/09.jpg";
     LineTotal 11;
     LineOrphans Index 0;
     LineDryRun]
  ∧ (LineTotal (11 - 10)
     ∉ (process_split_lines crowded_fs (mkPath true ["data"])
                            "train" "image" "index" false false false).2.1)
  ∧ render (LineTotal 11) = "        … 共 11 个".
Proof.
  assert ((process_split_lines crowded_fs (mkPath true ["data"])
             "train" "image" "index" false false false).2.1
          = [LineScanned "train" 11 0;
             LineOrphans Image 11;
             LinePreview "train/image/00.jpg"; LinePreview "train/image/01.jpg";
             LinePreview "train/image/02.jpg"; LinePreview "train/image/03.jpg";
             LinePreview "train/image/04.jpg"; LinePreview "train/image/05.jpg";
             LinePreview "train/image/06.jpg"; LinePreview "train/image/07.jpg";
             LinePreview "train/image/08.jpg"; LinePreview "train/image/09.jpg";
             LineTotal 11;
             LineOrphans Index 0;
             LineDryRun]) as H by (vm_compute; reflexivity).
  rewrite H. split_and!; [done| |by vm_compute].
  repeat (apply not_elem_of_cons; split; [discriminate|]).
  apply not_elem_of_nil.
Qed.

(** * Further properties of the script *)

(** ** Indexing files by key *)

Section KeyIndex.

Context (ignore_ext ignore_case : bool).

Local Abbreviation key := (file_key ignore_ext ignore_case).
Local Abbreviation collect files :=
  (collect_keys_map files ignore_ext ignore_case).

Lemma collect_keys_map_snoc (files : list Path) (f : Path) :
  collect (files ++ [f])
  = <[key f := default [] (collect files !! key f) ++ [f]]> (collect files).
Proof. unfold collect_keys_map. by rewrite foldl_snoc. Qed.

Lemma collect_keys_map_lookup_filter (files : list Path) (k : string) :
  collect files !! k
  = match filter (λ f, key f = k) files with
    | [] => None
    | l => Some l
    end.
Proof.
  induction files as [|f files IH] using rev_ind; [done|].
  rewrite collect_keys_map_snoc, filter_app.
  destruct (decide (key f = k)) as [<-|Hne].
  - rewrite lookup_insert_eq, IH, filter_cons_True, filter_nil by done.
    by destruct (filter _ files).
  - rewrite lookup_insert_ne, IH, filter_cons_False, filter_nil, app_nil_r
      by done.
    done.
Qed.

Lemma collect_keys_map_lookup_None (files : list Path) (k : string) :
  collect files !! k = None ↔ k ∉ key <$> files.
Proof.
  rewrite collect_keys_map_lookup_filter, list_elem_of_fmap. split.
  - intros Hnil (f & -> & Hf).
    destruct (filter (λ g, key g = key f) files) as [|g l] eqn:Hfl; [|done].
    by apply (filter_nil_not_elem_of _ _ _ Hfl eq_refl).
  - intros Hno.
    destruct (filter (λ f, key f = k) files) as [|g l] eqn:Hfl; [done|].
    assert (g ∈ filter (λ f, key f = k) files) as Hg by (rewrite Hfl; left).
    apply list_elem_of_filter in Hg as [Hk Hg]. destruct Hno. by exists g.
Qed.

(** Adding a file to the list filed under its key adds it to the
    concatenation of all the lists. *)
Lemma values_insert_snoc (m : gmap string (list Path)) (k : string) (f : Path) :
  mjoin ((map_to_list (<[k := default [] (m !! k) ++ [f]]> m)).*2)
  ≡ₚ mjoin ((map_to_list m).*2) ++ [f].
Proof.
  destruct (m !! k) as [v|] eqn:Hk; simpl.
  - rewrite <- insert_delete_eq.
    rewrite map_to_list_insert by apply lookup_delete_eq.
    rewrite <- (map_to_list_delete m k v Hk). csimpl.
    rewrite <- !app_assoc. f_equiv. apply Permutation_cons_append.
  - rewrite map_to_list_insert by done. csimpl.
    apply Permutation_cons_append.
Qed.

Lemma only_in_collect_snoc (files : list Path) (f : Path)
    (m' : gmap string (list Path)) :
  only_in (collect (files ++ [f])) m'
  ≡ₚ only_in (collect files) m'
     ++ (if decide (m' !! key f = None) then [f] else []).
Proof.
  rewrite !only_in_flatten, collect_keys_map_snoc.
  destruct (decide (m' !! key f = None)) as [Hk|Hk].
  - rewrite map_filter_insert_True by done.
    assert (filter (λ kv, m' !! kv.1 = None) (collect files) !! key f
            = collect files !! key f) as <-.
    { rewrite map_lookup_filter. destruct (collect files !! key f); [|done].
      simpl. by rewrite option_guard_True. }
    apply values_insert_snoc.
  - rewrite map_filter_insert_not by (by intros y). by rewrite app_nil_r.
Qed.

Lemma only_in_collect (files : list Path) (m' : gmap string (list Path)) :
  only_in (collect files) m' ≡ₚ filter (λ f, m' !! key f = None) files.
Proof.
  induction files as [|f files IH] using rev_ind.
  { rewrite only_in_flatten. unfold collect_keys_map. simpl.
    by rewrite map_filter_empty, map_to_list_empty. }
  rewrite only_in_collect_snoc, IH, filter_app. f_equiv.
  by destruct (decide (m' !! key f = None));
    rewrite ?filter_cons_True, ?filter_cons_False, filter_nil by done.
Qed.

End KeyIndex.

(** X1.  [collect_keys_map] files every entry under its key and nowhere
    else: a key is bound to the entries of the list that have this key, in
    the order of the list, and a key that no entry has is not bound, so no
    key is bound to an empty list; the empty list gives the empty map. *)
Theorem collect_keys_map_files_by_key
    (files : list Path) (ignore_ext ignore_case : bool) (k : string) :
  let m := collect_keys_map files ignore_ext ignore_case in
  let l := filter (λ f, file_key ignore_ext ignore_case f = k) files in
  m !! k = (if decide (l = []) then None else Some l)
  ∧ m !! k ≠ Some []
  ∧ (k ∈ dom m ↔ k ∈ file_key ignore_ext ignore_case <$> files)
  ∧ collect_keys_map [] ignore_ext ignore_case = ∅.
Proof.
  intros m l. subst m l. split_and!.
  - rewrite collect_keys_map_lookup_filter. by destruct (filter _ files).
  - rewrite collect_keys_map_lookup_filter. by destruct (filter _ files).
  - rewrite elem_of_dom, <- not_eq_None_Some, collect_keys_map_lookup_None.
    split; [apply dec_stable|auto].
  - done.
Qed.

(** X2.  No entry is lost or duplicated by [collect_keys_map]: the lists
    bound in the map, laid end to end, are a permutation of the input. *)
Theorem collect_keys_map_partition
    (files : list Path) (ignore_ext ignore_case : bool) :
  mjoin ((map_to_list (collect_keys_map files ignore_ext ignore_case)).*2)
  ≡ₚ files.
Proof.
  induction files as [|f files IH] using rev_ind.
  - unfold collect_keys_map. simpl. by rewrite map_to_list_empty.
  - rewrite collect_keys_map_snoc, values_insert_snoc. by rewrite IH.
Qed.

(** X3.  Indexing two listings and diffing them yields, on each side, the
    entries whose key no entry of the other side has, each as often as it
    is listed. *)
Theorem orphans_are_unmatched_files
    (image_files index_files : list Path) (ignore_ext ignore_case : bool) :
  let key := file_key ignore_ext ignore_case in
  let orphans :=
    compute_orphans (collect_keys_map image_files ignore_ext ignore_case)
                    (collect_keys_map index_files ignore_ext ignore_case) in
  orphans.1 ≡ₚ filter (λ f, key f ∉ key <$> index_files) image_files
  ∧ orphans.2 ≡ₚ filter (λ f, key f ∉ key <$> image_files) index_files.
Proof.
  intros key orphans. subst orphans. rewrite compute_orphans_only_in. simpl.
  split; rewrite only_in_collect; apply reflexive_eq, list_filter_iff;
    intros f; apply collect_keys_map_lookup_None.
Qed.

(** X4.  A side has no orphan exactly when every one of its entries has a
    key that some entry of the other side has. *)
Theorem no_orphans_iff_all_matched
    (image_files index_files : list Path) (ignore_ext ignore_case : bool) :
  let key := file_key ignore_ext ignore_case in
  let orphans :=
    compute_orphans (collect_keys_map image_files ignore_ext ignore_case)
                    (collect_keys_map index_files ignore_ext ignore_case) in
  (orphans.1 = [] ↔ ∀ f, f ∈ image_files → key f ∈ key <$> index_files)
  ∧ (orphans.2 = [] ↔ ∀ f, f ∈ index_files → key f ∈ key <$> image_files).
Proof.
  intros key orphans. subst orphans. rewrite compute_orphans_only_in. simpl.
  assert (∀ l1 l2 : list Path,
            only_in (collect_keys_map l1 ignore_ext ignore_case)
                    (collect_keys_map l2 ignore_ext ignore_case) = []
            ↔ ∀ f, f ∈ l1 → key f ∈ key <$> l2) as Hside; [|by split].
  intros l1 l2. split.
  - intros Hnil f Hf. apply dec_stable. intros Hno.
    assert (f ∈ only_in (collect_keys_map l1 ignore_ext ignore_case)
                        (collect_keys_map l2 ignore_ext ignore_case)) as Hin.
    { rewrite only_in_collect. apply list_elem_of_filter. split; [|done].
      by apply collect_keys_map_lookup_None. }
    rewrite Hnil in Hin. by apply elem_of_nil in Hin.
  - intros Hall. apply elem_of_nil_inv. intros f.
    rewrite only_in_collect, list_elem_of_filter.
    rewrite collect_keys_map_lookup_None. intros [Hno Hf]. by apply Hno, Hall.
Qed.

(** ** The orphans of a scanned split *)

Section ListedFiles.

Implicit Types (st : filesystem) (f g p d : Path) (files : list Path).

Lemma elem_of_list_files st d p :
  p ∈ list_files st d ↔
  FS.is_dir st d = true ∧ PurePath.parent p = Some d
  ∧ nodes st !! p = Some RegularFile.
Proof.
  destruct (FS.is_dir st d) eqn:Hd.
  - rewrite (list_files_dir _ _ Hd), list_elem_of_filter, elem_of_iterdir.
    rewrite is_file_spec. split; [intros (? & ? & _); by split_and!|].
    intros (_ & ? & Hp). rewrite Hp. eauto.
  - unfold list_files. rewrite Hd, orb_true_r, elem_of_nil.
    split; [done|]. by intros (? & _).
Qed.

End ListedFiles.

Section ScannedSplit.

Context (st : filesystem) (root : Path).
Context (split image_dirname index_dirname : string).
Context (ignore_ext ignore_case : bool).
Context (orphan_img orphan_idx : list Path).
Context (Hscan : split_orphans st root split image_dirname index_dirname
                   ignore_ext ignore_case = Some (orphan_img, orphan_idx)).

Local Abbreviation key := (file_key ignore_ext ignore_case).
Local Abbreviation image_dir := (root // split // image_dirname).
Local Abbreviation index_dir := (root // split // index_dirname).

Lemma scanned_orphan_img_perm :
  orphan_img
  ≡ₚ filter (λ f, key f ∉ key <$> list_files st index_dir)
            (list_files st image_dir).
Proof.
  apply split_orphans_Some in Hscan as (_ & _ & _ & Ho).
  rewrite compute_orphans_only_in in Ho. injection Ho as <- _.
  rewrite only_in_collect. apply reflexive_eq, list_filter_iff.
  intros f. apply collect_keys_map_lookup_None.
Qed.

Lemma scanned_orphan_idx_perm :
  orphan_idx
  ≡ₚ filter (λ f, key f ∉ key <$> list_files st image_dir)
            (list_files st index_dir).
Proof.
  apply split_orphans_Some in Hscan as (_ & _ & _ & Ho).
  rewrite compute_orphans_only_in in Ho. injection Ho as _ <-.
  rewrite only_in_collect. apply reflexive_eq, list_filter_iff.
  intros f. apply collect_keys_map_lookup_None.
Qed.

Lemma elem_of_orphan_img (f : Path) :
  f ∈ orphan_img ↔
  f ∈ list_files st image_dir ∧ key f ∉ key <$> list_files st index_dir.
Proof. rewrite scanned_orphan_img_perm, list_elem_of_filter. tauto. Qed.

Lemma elem_of_orphan_idx (f : Path) :
  f ∈ orphan_idx ↔
  f ∈ list_files st index_dir ∧ key f ∉ key <$> list_files st image_dir.
Proof. rewrite scanned_orphan_idx_perm, list_elem_of_filter. tauto. Qed.

Lemma process_split_lines_delete_state :
  (process_split_lines st root split image_dirname index_dirname
                       ignore_ext ignore_case true).1
  = (delete_files st (orphan_img ++ orphan_idx)).1.
Proof.
  rewrite (process_split_lines_scanned _ _ _ _ _ _ _ true _ _ Hscan).
  by rewrite delete_files_app.
Qed.

End ScannedSplit.

(** X5.  The orphans of a scanned split are regular files that sit
    directly in the image directory, respectively in the index directory;
    no file occurs twice in the two lists taken together, and neither list
    is longer than the listing it comes from. *)
Theorem scanned_orphans_are_listed_files
    (st : filesystem) (root : Path)
    (split image_dirname index_dirname : string)
    (ignore_ext ignore_case : bool) (orphan_img orphan_idx : list Path) :
  split_orphans st root split image_dirname index_dirname
                ignore_ext ignore_case = Some (orphan_img, orphan_idx) →
  let image_dir := root // split // image_dirname in
  let index_dir := root // split // index_dirname in
  NoDup (orphan_img ++ orphan_idx)
  ∧ (∀ f, f ∈ orphan_img →
          PurePath.parent f = Some image_dir
          ∧ nodes st !! f = Some RegularFile)
  ∧ (∀ f, f ∈ orphan_idx →
          PurePath.parent f = Some index_dir
          ∧ nodes st !! f = Some RegularFile)
  ∧ length orphan_img ≤ length (list_files st image_dir)
  ∧ length orphan_idx ≤ length (list_files st index_dir).
Proof.
  intros Hscan image_dir index_dir.
  pose proof (scanned_orphan_img_perm _ _ _ _ _ _ _ _ _ Hscan) as Hi.
  pose proof (scanned_orphan_idx_perm _ _ _ _ _ _ _ _ _ Hscan) as Hx.
  split_and!.
  - apply NoDup_app. split_and!.
    + rewrite Hi. apply NoDup_filter, NoDup_list_files.
    + intros f [_ Hno]%(elem_of_orphan_img _ _ _ _ _ _ _ _ _ Hscan).
      intros [Hf _]%(elem_of_orphan_idx _ _ _ _ _ _ _ _ _ Hscan).
      apply Hno. by apply list_elem_of_fmap_2.
    + rewrite Hx. apply NoDup_filter, NoDup_list_files.
  - intros f [Hf _]%(elem_of_orphan_img _ _ _ _ _ _ _ _ _ Hscan).
    by apply elem_of_list_files in Hf as (_ & ? & ?).
  - intros f [Hf _]%(elem_of_orphan_idx _ _ _ _ _ _ _ _ _ Hscan).
    by apply elem_of_list_files in Hf as (_ & ? & ?).
  - rewrite Hi. apply length_filter.
  - rewrite Hx. apply length_filter.
Qed.

Lemma scanned_orphans_are_listed_files_witness :
  NoDup ([scenario_dir "image" // "c.jpg"] ++ [scenario_dir "index" // "d.idx"]).
Proof.
  assert (split_orphans scenario_fs (mkPath true ["data"])
                        "train" "image" "index" true false
          = Some ([scenario_dir "image" // "c.jpg"],
                  [scenario_dir "index" // "d.idx"])) as H
    by (vm_compute; reflexivity).
  exact (proj1 (scanned_orphans_are_listed_files _ _ _ _ _ _ _ _ _ H)).
Defined.

Lemma process_split_lines_state
    (st : filesystem) (root : Path)
    (split image_dirname index_dirname : string)
    (ignore_ext ignore_case do_delete : bool) :
  (process_split_lines st root split image_dirname index_dirname
                       ignore_ext ignore_case do_delete).1
  = match split_orphans st root split image_dirname index_dirname
                        ignore_ext ignore_case with
    | Some (orphan_img, orphan_idx) =>
        if do_delete then (delete_files st (orphan_img ++ orphan_idx)).1
        else st
    | None => st
    end.
Proof.
  destruct (split_orphans st root split image_dirname index_dirname
                          ignore_ext ignore_case) as [[oi ox]|] eqn:Ho.
  - destruct do_delete.
    + by apply process_split_lines_delete_state.
    + by rewrite (process_split_lines_scanned _ _ _ _ _ _ _ false _ _ Ho).
  - apply split_orphans_None in Ho as [Hs|[Hs Hsub]].
    + by rewrite process_split_lines_no_split.
    + by rewrite process_split_lines_no_subdir.
Qed.

(** ** Paths shown in the report *)

(** X11.  [human_relpath] never fails: a path below [root] is shown by
    its components after those of [root], joined by ["/"] (["."] for
    [root] itself), so [root / s] with a relative [s] is shown as the
    normalised [s]; a path that is not below [root] is shown in full. *)
Theorem human_relpath_cases (p root : Path) :
  (∀ rest, p = mkPath (absolute root) (parts root ++ rest) →
           human_relpath p root
           = match rest with [] => "." | _ => Str.join "/" rest end)
  ∧ (∀ s, Str.startswith "/" s = false → p = root // s →
          human_relpath p root = PurePath.str (PurePath.of_string s))
  ∧ (absolute p ≠ absolute root
     ∨ take (length (parts root)) (parts p) ≠ parts root →
     human_relpath p root = PurePath.str p).
Proof.
  assert (∀ rest, human_relpath (mkPath (absolute root) (parts root ++ rest))
                                root
                  = PurePath.str (mkPath false rest)) as Hbelow.
  { intros rest. unfold human_relpath, PurePath.relative_to. simpl.
    rewrite bool_decide_eq_true_2 by (by rewrite take_app_length).
    by rewrite drop_app_length. }
  split_and!.
  - intros rest ->. by rewrite Hbelow.
  - intros s Hs ->. unfold PurePath.joinpath.
    destruct (PurePath.of_string s) as [a l] eqn:Hp.
    assert (a = false) as -> by (by injection Hp as <- _). simpl.
    apply Hbelow.
  - intros Hnot. unfold human_relpath, PurePath.relative_to.
    rewrite bool_decide_eq_false_2; [done|]. tauto.
Qed.

Lemma human_relpath_cases_witness :
  human_relpath (mkPath true ["data"] // "train/image") (mkPath true ["data"])
  = PurePath.str (PurePath.of_string "train/image")
  ∧ human_relpath (mkPath true ["etc"]) (mkPath true ["data"])
    = PurePath.str (mkPath true ["etc"]).
Proof.
  split.
  - exact (proj1 (proj2 (human_relpath_cases
                           (mkPath true ["data"] // "train/image")
                           (mkPath true ["data"])))
             "train/image" eq_refl eq_refl).
  - apply (proj2 (proj2 (human_relpath_cases (mkPath true ["etc"])
                           (mkPath true ["data"])))).
    right. discriminate.
Defined.

(** ** Case folding of keys *)

Section CaseFolding.

Lemma lower_char_dot (a : ascii) : Str.lower_char a = "."%char ↔ a = "."%char.
Proof.
  destruct a as [[] [] [] [] [] [] [] []]; vm_compute;
    split; intros H; first [reflexivity | discriminate H].
Qed.

Lemma lower_char_idem (a : ascii) :
  Str.lower_char (Str.lower_char a) = Str.lower_char a.
Proof. by destruct a as [[] [] [] [] [] [] [] []]. Qed.

Lemma lower_idem (s : string) : Str.lower (Str.lower s) = Str.lower s.
Proof.
  induction s as [|a s IH]; [done|]. simpl. by rewrite lower_char_idem, IH.
Qed.

Lemma rfind_dot_lower (s : string) :
  Str.rfind "." (Str.lower s) = Str.rfind "." s.
Proof.
  induction s as [|a s IH]; [done|]. simpl. rewrite IH.
  by rewrite (bool_decide_ext _ _ (lower_char_dot a)).
Qed.

Lemma len_lower (s : string) : Str.len (Str.lower s) = Str.len s.
Proof.
  unfold Str.len. f_equal. induction s as [|a s IH]; [done|].
  simpl. by rewrite IH.
Qed.

Lemma take_lower (n : nat) (s : string) :
  Str.take n (Str.lower s) = Str.lower (Str.take n s).
Proof.
  revert s. induction n as [|n IH]; intros [|a s]; try done.
  simpl. by rewrite IH.
Qed.

Lemma stem_lower (absl : bool) (s : string) :
  PurePath.stem (mkPath absl [Str.lower s])
  = Str.lower (PurePath.stem (mkPath absl [s])).
Proof.
  unfold PurePath.stem, PurePath.name. simpl.
  rewrite rfind_dot_lower, len_lower, take_lower. by case_bool_decide.
Qed.

End CaseFolding.

(** X12.  With [ignore_case], two file names that differ only in the case
    of their ASCII letters get the same key, with or without [ignore_ext],
    and the key is itself in lower case. *)
Theorem build_key_case_insensitive (a b : string) (ignore_ext : bool) :
  is_filename a → is_filename b → Str.lower a = Str.lower b →
  build_key a ignore_ext true = build_key b ignore_ext true
  ∧ Str.lower (build_key a ignore_ext true) = build_key a ignore_ext true.
Proof.
  intros Ha Hb Hab. rewrite !build_key_filename by done. simpl.
  split; [|apply lower_idem].
  destruct ignore_ext; [|done]. by rewrite <- !stem_lower, Hab.
Qed.

Lemma build_key_case_insensitive_witness :
  build_key "a.PNG" true true = build_key "A.png" true true.
Proof.
  apply (proj1 (build_key_case_insensitive "a.PNG" "A.png" true
                  ltac:(by repeat split) ltac:(by repeat split) eq_refl)).
Defined.

(** ** The run over all splits *)

Section MainLoop.

Context (root : Path) (image_dir index_dir : string).
Context (delete ignore_ext ignore_case : bool).

Local Abbreviation nl := (String "010" "").
Local Abbreviation step :=
  (main_step root image_dir index_dir delete ignore_ext ignore_case).
Local Abbreviation lines st split :=
  (process_split_lines st root split image_dir index_dir
                       ignore_ext ignore_case delete).

Lemma join_render_error_empty (l : list error_line) :
  Str.join nl (render_error <$> l) = "" ↔ l = [].
Proof.
  split; [|by intros ->].
  destruct l as [|[split s e] [|e' l]]; [done|discriminate..].
Qed.

Lemma main_step_lines (st : filesystem) (all_reports all_errors : list string)
    (split : string) :
  step (st, (all_reports, all_errors)) split
  = ((lines st split).1,
     (all_reports ++ [Str.join nl (render <$> (lines st split).2.1)],
      all_errors ++ match (lines st split).2.2 with
                    | [] => []
                    | l => [Str.join nl (render_error <$> l)]
                    end)).
Proof.
  unfold main_step, process_split.
  destruct (lines st split) as [st' [report_lines error_lines]]. simpl.
  case_bool_decide as Herr.
  - apply join_render_error_empty in Herr as ->. by rewrite app_nil_r.
  - destruct error_lines; [by destruct Herr|done].
Qed.

Lemma main_loop_acc (splits : list string) (st : filesystem)
    (all_reports all_errors : list string) :
  foldl step (st, (all_reports, all_errors)) splits
  = let r := main_loop st root splits image_dir index_dir
                       delete ignore_ext ignore_case in
    (r.1, (all_reports ++ r.2.1, all_errors ++ r.2.2)).
Proof.
  unfold main_loop. revert st all_reports all_errors.
  induction splits as [|s splits IH]; intros st all_reports all_errors.
  { simpl. by rewrite !app_nil_r. }
  cbn [foldl]. rewrite !main_step_lines, IH. symmetry. rewrite IH.
  cbv zeta. cbn [fst snd]. by rewrite !app_nil_l, !app_assoc.
Qed.

Lemma main_loop_cons (st : filesystem) (s : string) (splits : list string) :
  main_loop st root (s :: splits) image_dir index_dir
            delete ignore_ext ignore_case
  = let r := main_loop (lines st s).1 root splits image_dir index_dir
                       delete ignore_ext ignore_case in
    (r.1,
     (Str.join nl (render <$> (lines st s).2.1) :: r.2.1,
      match (lines st s).2.2 with
      | [] => []
      | l => [Str.join nl (render_error <$> l)]
      end ++ r.2.2)).
Proof.
  unfold main_loop at 1. cbn [foldl]. by rewrite main_step_lines, main_loop_acc.
Qed.

End MainLoop.

Lemma process_split_lines_errors
    (st : filesystem) (root : Path)
    (split image_dirname index_dirname : string)
    (ignore_ext ignore_case : bool) :
  (process_split_lines st root split image_dirname index_dirname
                       ignore_ext ignore_case false).2.2 = [].
Proof.
  destruct (split_orphans st root split image_dirname index_dirname
                          ignore_ext ignore_case) as [[oi ox]|] eqn:Ho.
  - by rewrite (process_split_lines_scanned _ _ _ _ _ _ _ false _ _ Ho).
  - apply split_orphans_None in Ho as [Hs|[Hs Hsub]].
    + by rewrite process_split_lines_no_split.
    + by rewrite process_split_lines_no_subdir.
Qed.

(** X13.  Without the delete flag a whole run, over any list of splits,
    leaves the tree as it found it and writes nothing to the error
    stream. *)
Theorem main_dry_run_changes_nothing
    (st : filesystem) (root : Path) (splits : list string)
    (image_dir index_dir : string) (ignore_ext ignore_case : bool) :
  let r := main st root splits image_dir index_dir
                false ignore_ext ignore_case in
  r.1 = st ∧ stderr r.2 = "".
Proof.
  intros r. subst r. unfold main.
  assert (main_loop st root splits image_dir index_dir
                    false ignore_ext ignore_case
          = (st, ((main_loop st root splits image_dir index_dir
                             false ignore_ext ignore_case).2.1, []))) as ->;
    [|done].
  revert st. induction splits as [|s splits IH]; intros st; [done|].
  rewrite main_loop_cons. cbv zeta.
  rewrite process_split_lines_errors, process_split_lines_state.
  assert (match split_orphans st root s image_dir index_dir
                              ignore_ext ignore_case with
          | Some (_, _) => st
          | None => st
          end = st) as -> by by repeat case_match.
  by rewrite IH.
Qed.


(** * Runs in which system calls may fail *)

Section SysCalls.

Context {fs : Type} `{!OS fs}.

Implicit Types (st : fs) (d p f : Path) (e : OSError).

Lemma regular_files_Return st (children files : list Path) :
  Sys.regular_files st children = Return files ↔
  Forall (λ p, ∃ b, Sys.is_file st p = Return b) children
  ∧ files = filter (λ p, Sys.is_file st p = Return true) children.
Proof.
  revert files. induction children as [|p l IH]; intros files; simpl.
  { split; [by intros [= <-]|by intros [_ ->]]. }
  destruct (Sys.is_file st p) as [b|e] eqn:Hp; simpl.
  - destruct (Sys.regular_files st l) as [fl|e'] eqn:Hl; simpl.
    + destruct (IH fl) as [[Hall ->] _]; [done|]. split.
      * intros [= <-]. split; [constructor; eauto|].
        destruct b; [by rewrite filter_cons_True|].
        rewrite filter_cons_False; [done|]. by rewrite Hp.
      * intros [_ ->]. f_equal.
        destruct b; [by rewrite filter_cons_True|].
        rewrite filter_cons_False; [done|]. by rewrite Hp.
    + split; [done|]. intros [Hall _]. apply Forall_cons in Hall as [_ Hall].
      discriminate (proj2 (IH _) (conj Hall eq_refl)).
  - split; [done|]. intros [Hall _]. apply Forall_cons in Hall as [[b Hb] _].
    congruence.
Qed.

Lemma regular_files_Raised st (children : list Path) e :
  Sys.regular_files st children = Raised e ↔
  ∃ l1 p l2, children = l1 ++ p :: l2
             ∧ Forall (λ q, ∃ b, Sys.is_file st q = Return b) l1
             ∧ Sys.is_file st p = Raised e.
Proof.
  induction children as [|p l IH]; simpl.
  { split; [done|]. by intros ([|??] & ? & ? & ? & _). }
  destruct (Sys.is_file st p) as [b|e'] eqn:Hp; simpl.
  - destruct (Sys.regular_files st l) as [fl|e''] eqn:Hl; simpl.
    + split; [done|]. intros (l1 & q & l2 & Heq & Hall & Hq).
      destruct l1 as [|q' l1]; simplify_eq/=; [congruence|].
      apply Forall_cons in Hall as [_ Hall].
      discriminate (proj2 IH (ex_intro _ l1 (ex_intro _ q (ex_intro _ l2
                      (conj eq_refl (conj Hall Hq)))))).
    + split.
      * intros [= ->]. destruct (proj1 IH eq_refl) as (l1 & q & l2 & -> & ? & ?).
        exists (p :: l1), q, l2. split_and!; [done| |done].
        constructor; eauto.
      * intros (l1 & q & l2 & Heq & Hall & Hq).
        destruct l1 as [|q' l1]; simplify_eq/=; [congruence|].
        apply Forall_cons in Hall as [_ Hall].
        apply IH. by exists l1, q, l2.
  - split.
    + intros [= ->]. exists [], p, l. by split_and!.
    + intros (l1 & q & l2 & Heq & Hall & Hq).
      destruct l1 as [|q' l1]; simplify_eq/=; [congruence|].
      apply Forall_cons in Hall as [[b Hb] _]. congruence.
Qed.

Lemma sys_list_files_cases st d :
  Sys.list_files st d
  = match os_stat st d with
    | Raised e => if Sys.ignore_error e then Return [] else Raised e
    | Return S_IFDIR =>
        match os_listdir st d with
        | Raised e => Raised e
        | Return names =>
            Sys.regular_files st
              (Sys.child d <$> filter (λ name, name ∉ ["."; ".."]) names)
        end
    | Return _ => Return []
    end.
Proof.
  unfold Sys.list_files, Sys.exists_, Sys.is_dir, Sys.iterdir.
  destruct (os_stat st d) as [[]|e]; simpl; try done.
  - by destruct (os_listdir st d).
  - by destruct (Sys.ignore_error e).
Qed.

(** The deletion loop *)

Lemma sys_delete_loop_acc (files : list Path) st (n : nat) (es : list string) :
  foldl Sys.delete_step (st, (n, es)) files
  = let r := Sys.delete_files st files in (r.1, (n + r.2.1, es ++ r.2.2)).
Proof.
  unfold Sys.delete_files. revert st n es.
  induction files as [|f files IH]; intros st n es; simpl.
  - by rewrite Nat.add_0_r, app_nil_r.
  - destruct (Sys.unlink st f) as [st'|e]; rewrite IH; symmetry; rewrite IH;
      simpl; f_equal; f_equal; [lia|by rewrite <- app_assoc].
Qed.

Lemma sys_delete_files_cons st f (files : list Path) :
  Sys.delete_files st (f :: files)
  = match Sys.unlink st f with
    | Return st' =>
        let r := Sys.delete_files st' files in (r.1, (S r.2.1, r.2.2))
    | Raised e =>
        let r := Sys.delete_files st files in
        (r.1, (r.2.1, (PurePath.str f +:+ ": " +:+ text e) :: r.2.2))
    end.
Proof.
  unfold Sys.delete_files at 1. simpl.
  destruct (Sys.unlink st f) as [st'|e]; by rewrite sys_delete_loop_acc.
Qed.

Lemma sys_delete_files_app st (l1 l2 : list Path) :
  Sys.delete_files st (l1 ++ l2)
  = let r1 := Sys.delete_files st l1 in
    let r2 := Sys.delete_files r1.1 l2 in
    (r2.1, (r1.2.1 + r2.2.1, r1.2.2 ++ r2.2.2)).
Proof.
  unfold Sys.delete_files at 1. rewrite foldl_app.
  fold (Sys.delete_files st l1).
  destruct (Sys.delete_files st l1) as [st1 [n1 es1]]. simpl.
  by rewrite sys_delete_loop_acc.
Qed.

Lemma sys_delete_files_middle st (l1 l2 : list Path) f :
  Sys.delete_files st (l1 ++ f :: l2)
  = let a := Sys.delete_files st l1 in
    match Sys.unlink a.1 f with
    | Return st' =>
        let b := Sys.delete_files st' l2 in
        (b.1, (a.2.1 + S b.2.1, a.2.2 ++ b.2.2))
    | Raised e =>
        let b := Sys.delete_files a.1 l2 in
        (b.1, (a.2.1 + b.2.1,
               a.2.2 ++ (PurePath.str f +:+ ": " +:+ text e) :: b.2.2))
    end.
Proof.
  rewrite sys_delete_files_app. simpl. rewrite sys_delete_files_cons.
  by destruct (Sys.unlink _ f).
Qed.

Lemma sys_unlink_cases st f :
  Sys.unlink st f
  = match os_unlink st f with
    | Return st' => Return st'
    | Raised e => if bool_decide (errno e = ENOENT) then Return st else Raised e
    end.
Proof. reflexivity. Qed.

Lemma sys_delete_files_missing st (files : list Path) :
  Forall (λ f, ∃ e, os_unlink st f = Raised e ∧ errno e = ENOENT) files →
  Sys.delete_files st files = (st, (length files, [])).
Proof.
  induction 1 as [|f files (e & Hf & He) _ IH]; [done|].
  rewrite sys_delete_files_cons, sys_unlink_cases, Hf.
  by rewrite bool_decide_eq_true_2, IH.
Qed.

(** Split processing *)

Lemma sys_process_split_lines_scanned st (root : Path)
    (split image_dirname index_dirname : string)
    (ignore_ext ignore_case do_delete : bool)
    (image_files index_files : list Path) :
  Sys.scan st root split image_dirname index_dirname
  = Return (Some (image_files, index_files)) →
  Sys.process_split_lines st root split image_dirname index_dirname
                          ignore_ext ignore_case do_delete
  = let orphans :=
      compute_orphans
        (collect_keys_map image_files ignore_ext ignore_case)
        (collect_keys_map index_files ignore_ext ignore_case) in
    let report_lines :=
      [LineScanned split (length image_files) (length index_files)]
      ++ orphan_block root Image orphans.1
      ++ orphan_block root Index orphans.2 in
    if do_delete then
      let r1 := Sys.delete_files st orphans.1 in
      let r2 := Sys.delete_files r1.1 orphans.2 in
      Return (r2.1,
              (report_lines
               ++ [LineDeleted Image r1.2.1 (length orphans.1);
                   LineDeleted Index r2.2.1 (length orphans.2)],
               (LineDeleteFailed split Image <$> r1.2.2)
               ++ (LineDeleteFailed split Index <$> r2.2.2)))
    else Return (st, (report_lines ++ [LineDryRun], [])).
Proof.
  unfold Sys.scan, Sys.process_split_lines.
  destruct (Sys.exists_ st (root // split)) as [[]|];
    cbn [and_then negb]; [|done..].
  destruct (Sys.exists_ st (root // split // image_dirname)) as [[]|];
    cbn [and_then negb]; [|done..].
  destruct (Sys.exists_ st (root // split // index_dirname)) as [[]|];
    cbn [and_then negb]; [|done..].
  destruct (Sys.list_files st (root // split // image_dirname)) as [l1|];
    cbn [and_then]; [|done].
  destruct (Sys.list_files st (root // split // index_dirname)) as [l2|];
    cbn [and_then]; [|done].
  intros [= -> ->]. cbv zeta.
  destruct (compute_orphans
              (collect_keys_map image_files ignore_ext ignore_case)
              (collect_keys_map index_files ignore_ext ignore_case))
    as [oi ox].
  cbn [fst snd]. destruct do_delete; [|done].
  destruct (Sys.delete_files st oi) as [st1 [n1 e1]]. cbn [fst snd].
  by destruct (Sys.delete_files st1 ox) as [st2 [n2 e2]].
Qed.

End SysCalls.

(** C7, as amended.  [list_files] returns the empty list when [stat] on the
    path fails with [ENOENT], [ENOTDIR], [EBADF] or [ELOOP] (the path does
    not exist) and when the path is not a directory; any other failure of
    [stat], and a failure to read the directory, leaves [list_files] as an
    exception; on a directory that is read, it returns exactly the listed
    entries, other than ["."] and [".."], that [stat] shows as regular
    files, in the order of the listing, provided the test of every entry
    returns, and raises what the first failing test raises otherwise. *)
Theorem list_files_returns_or_raises
    {fs : Type} `{!OS fs} (st : fs) (d : Path) :
  (∀ e, os_stat st d = Raised e →
        errno e ∈ [ENOENT; ENOTDIR; EBADF; ELOOP] →
        Sys.list_files st d = Return [])
  ∧ (∀ t, os_stat st d = Return t → t ≠ S_IFDIR →
          Sys.list_files st d = Return [])
  ∧ (∀ e, os_stat st d = Raised e →
          errno e ∉ [ENOENT; ENOTDIR; EBADF; ELOOP] →
          Sys.list_files st d = Raised e)
  ∧ (∀ e, os_stat st d = Return S_IFDIR → os_listdir st d = Raised e →
          Sys.list_files st d = Raised e)
  ∧ (∀ names, os_stat st d = Return S_IFDIR → os_listdir st d = Return names →
       let children :=
         Sys.child d <$> filter (λ name, name ∉ ["."; ".."]) names in
       (∀ files, Sys.list_files st d = Return files ↔
          Forall (λ p, ∃ b, Sys.is_file st p = Return b) children
          ∧ files = filter (λ p, Sys.is_file st p = Return true) children)
       ∧ (∀ e, Sys.list_files st d = Raised e ↔
            ∃ l1 p l2, children = l1 ++ p :: l2
                       ∧ Forall (λ q, ∃ b, Sys.is_file st q = Return b) l1
                       ∧ Sys.is_file st p = Raised e))
  ∧ (∀ p, Sys.is_file st p = Return true ↔ os_stat st p = Return S_IFREG).
Proof.
  rewrite sys_list_files_cases. unfold Sys.ignore_error. split_and!.
  - intros e -> He. by rewrite bool_decide_eq_true_2.
  - intros t -> Ht. by destruct t.
  - intros e -> He. by rewrite bool_decide_eq_false_2.
  - by intros e -> ->.
  - intros names -> ->. split.
    + intros files. apply regular_files_Return.
    + intros e. apply regular_files_Raised.
  - intros p. unfold Sys.is_file.
    destruct (os_stat st p) as [[]|e]; [done..|].
    by destruct (Sys.ignore_error e).
Qed.

Lemma list_files_returns_or_raises_witness :
  Sys.list_files scenario_machine (scenario_dir "valid") = Return []
  ∧ Sys.list_files scenario_machine (scenario_dir "image" // "a.jpg")
    = Return [].
Proof.
  split.
  - apply (proj1 (list_files_returns_or_raises scenario_machine
                    (scenario_dir "valid"))
             (os_error ENOENT "No such file or directory"
                       (scenario_dir "valid"))).
    + vm_compute. reflexivity.
    + apply (bool_decide_unpack _). vm_compute. exact I.
  - apply (proj1 (proj2 (list_files_returns_or_raises scenario_machine
                           (scenario_dir "image" // "a.jpg")))
             S_IFREG).
    + vm_compute. reflexivity.
    + discriminate.
Defined.

(** C7, as stated, fails where the system call itself fails: a directory
    name of 300 bytes does not exist, yet [exists()] raises
    [ENAMETOOLONG] and so does [list_files]; and on a directory that may
    not be read [iterdir()] raises [EACCES] where the claim promises its
    regular files. *)
Lemma list_files_raises_on_stat_and_read_errors :
  nodes (tree scenario_machine) !! scenario_dir (repeat_x 300) = None
  ∧ Sys.list_files scenario_machine (scenario_dir (repeat_x 300))
    = Raised (os_error ENAMETOOLONG "File name too long"
                       (scenario_dir (repeat_x 300)))
  ∧ nodes (tree locked_machine) !! scenario_dir "image" = Some Directory
  ∧ Sys.list_files locked_machine (scenario_dir "image")
    = Raised (os_error EACCES "Permission denied" (scenario_dir "image")).
Proof. split_and!; vm_compute; reflexivity. Qed.

(** C6, as amended.  When [exists()] returns [False] for the split root the
    result is the split-missing line alone; when it returns [True] there
    and [False] for a subdirectory, the result is the missing-subdirectory
    line followed by one line for each subdirectory it returns [False]
    for, the image directory first; in both cases the state is returned
    as it was, with no error line, and nothing is listed or removed.
    An exception raised by one of the three tests leaves [process_split]
    with it. *)
Theorem process_split_missing_or_raises
    {fs : Type} `{!OS fs} (st : fs) (root : Path)
    (split image_dirname index_dirname : string)
    (ignore_ext ignore_case do_delete : bool) :
  let split_root := root // split in
  let image_dir := split_root // image_dirname in
  let index_dir := split_root // index_dirname in
  let r := Sys.process_split_lines st root split image_dirname index_dirname
                                   ignore_ext ignore_case do_delete in
  (Sys.exists_ st split_root = Return false →
   r = Return (st, ([LineSplitMissing split
                       (human_relpath split_root root)], [])))
  ∧ (∀ has_image has_index : bool,
       Sys.exists_ st split_root = Return true →
       Sys.exists_ st image_dir = Return has_image →
       Sys.exists_ st index_dir = Return has_index →
       has_image = false ∨ has_index = false →
       r = Return
             (st,
              (LineSubdirMissing split image_dirname index_dirname
               :: (if has_image then []
                   else [LineMissing (human_relpath image_dir root)])
               ++ (if has_index then []
                   else [LineMissing (human_relpath index_dir root)]),
               [])))
  ∧ (∀ e, Sys.exists_ st split_root = Raised e → r = Raised e)
  ∧ (∀ e, Sys.exists_ st split_root = Return true →
          Sys.exists_ st image_dir = Raised e → r = Raised e)
  ∧ (∀ e (has_image : bool),
       Sys.exists_ st split_root = Return true →
       Sys.exists_ st image_dir = Return has_image →
       Sys.exists_ st index_dir = Raised e → r = Raised e).
Proof.
  intros split_root image_dir index_dir r. subst r.
  unfold Sys.process_split_lines.
  fold split_root. fold image_dir. fold index_dir. split_and!.
  - by intros ->.
  - intros has_image has_index -> -> ->. cbn [and_then negb].
    by destruct has_image, has_index; intros [?|?].
  - by intros e ->.
  - by intros e -> ->.
  - intros e has_image -> -> ->. by destruct has_image.
Qed.

Lemma process_split_missing_or_raises_witness :
  Sys.process_split_lines scenario_machine (mkPath true ["data"])
                          "valid" "image" "index" false false true
  = Return (scenario_machine, ([LineSplitMissing "valid" "valid"], []))
  ∧ Sys.process_split_lines scenario_machine (mkPath true ["data"])
                            "train" "image" "idx" false false true
    = Return (scenario_machine,
              ([LineSubdirMissing "train" "image" "idx";
                LineMissing "train/idx"], [])).
Proof.
  split.
  - apply (proj1 (process_split_missing_or_raises
                    scenario_machine (mkPath true ["data"])
                    "valid" "image" "index" false false true)).
    vm_compute. reflexivity.
  - apply (proj1 (proj2 (process_split_missing_or_raises
                           scenario_machine (mkPath true ["data"])
                           "train" "image" "idx" false false true))
             true false).
    + vm_compute. reflexivity.
    + vm_compute. reflexivity.
    + vm_compute. reflexivity.
    + by right.
Defined.

(** C6, as stated, fails on an absent directory whose name [stat]
    refuses: with a split name of 300 bytes the split root does not exist,
    and with such an index directory name the index subdirectory does not
    exist, yet [exists()] raises [ENAMETOOLONG] and [process_split] ends
    with that exception instead of a report. *)
Lemma process_split_raises_on_long_names :
  nodes (tree scenario_machine) !! (mkPath true ["data"] // repeat_x 300)
  = None
  ∧ Sys.process_split_lines scenario_machine (mkPath true ["data"])
                            (repeat_x 300) "image" "index" false false false
    = Raised (os_error ENAMETOOLONG "File name too long"
                       (mkPath true ["data"] // repeat_x 300))
  ∧ nodes (tree scenario_machine)
      !! (mkPath true ["data"] // "train" // repeat_x 300) = None
  ∧ Sys.process_split_lines scenario_machine (mkPath true ["data"])
                            "train" "image" (repeat_x 300) false false false
    = Raised (os_error ENAMETOOLONG "File name too long"
                       (mkPath true ["data"] // "train" // repeat_x 300)).
Proof. split_and!; vm_compute; reflexivity. Qed.

(** C2, as amended.  With the delete flag set and the two listings of the
    split at hand, [unlink] is tried on every image orphan and then on
    every index orphan, each from the state the attempts before it left.
    An attempt that [os.unlink] fails with [ENOENT] (the
    [FileNotFoundError] that [missing_ok] suppresses) counts as deleted
    and leaves the state as it is; any other failure adds one entry made
    of the path and the text of the error, and the loop goes on with the
    next file; the report ends with the two lines giving, per side, the
    number deleted out of the number attempted. *)
Theorem process_split_deletes_or_records
    {fs : Type} `{!OS fs} (st : fs) (root : Path)
    (split image_dirname index_dirname : string)
    (ignore_ext ignore_case : bool) (image_files index_files : list Path) :
  Sys.scan st root split image_dirname index_dirname
  = Return (Some (image_files, index_files)) →
  let orphans :=
    compute_orphans (collect_keys_map image_files ignore_ext ignore_case)
                    (collect_keys_map index_files ignore_ext ignore_case) in
  let r1 := Sys.delete_files st orphans.1 in
  let r2 := Sys.delete_files r1.1 orphans.2 in
  Sys.process_split_lines st root split image_dirname index_dirname
                          ignore_ext ignore_case true
  = Return
      (r2.1,
       (([LineScanned split (length image_files) (length index_files)]
         ++ orphan_block root Image orphans.1
         ++ orphan_block root Index orphans.2)
        ++ [LineDeleted Image r1.2.1 (length orphans.1);
            LineDeleted Index r2.2.1 (length orphans.2)],
        (LineDeleteFailed split Image <$> r1.2.2)
        ++ (LineDeleteFailed split Index <$> r2.2.2)))
  ∧ (∀ st0 l1 f l2,
       Sys.delete_files st0 (l1 ++ f :: l2)
       = let a := Sys.delete_files st0 l1 in
         match Sys.unlink a.1 f with
         | Return st' =>
             let b := Sys.delete_files st' l2 in
             (b.1, (a.2.1 + S b.2.1, a.2.2 ++ b.2.2))
         | Raised e =>
             let b := Sys.delete_files a.1 l2 in
             (b.1, (a.2.1 + b.2.1,
                    a.2.2 ++ (PurePath.str f +:+ ": " +:+ text e) :: b.2.2))
         end)
  ∧ (∀ st0 f st', os_unlink st0 f = Return st' →
                  Sys.unlink st0 f = Return st')
  ∧ (∀ st0 f e, os_unlink st0 f = Raised e → errno e = ENOENT →
                Sys.unlink st0 f = Return st0)
  ∧ (∀ st0 f e, os_unlink st0 f = Raised e → errno e ≠ ENOENT →
                Sys.unlink st0 f = Raised e).
Proof.
  intros Hscan orphans r1 r2. split_and!.
  - by rewrite (sys_process_split_lines_scanned _ _ _ _ _ _ _ true _ _ Hscan).
  - intros st0 l1 f l2. apply sys_delete_files_middle.
  - intros st0 f st' Hf. by rewrite sys_unlink_cases, Hf.
  - intros st0 f e Hf He. rewrite sys_unlink_cases, Hf.
    by rewrite bool_decide_eq_true_2.
  - intros st0 f e Hf He. rewrite sys_unlink_cases, Hf.
    by rewrite bool_decide_eq_false_2.
Qed.

Lemma process_split_deletes_or_records_witness :
  Sys.process_split_lines scenario_machine (mkPath true ["data"])
                          "train" "image" "index" true false true
  = Return
      ((Sys.delete_files
          (Sys.delete_files scenario_machine scenario_orphans.1).1
          scenario_orphans.2).1,
       (([LineScanned "train" (length scenario_listing.1)
                      (length scenario_listing.2)]
         ++ orphan_block (mkPath true ["data"]) Image scenario_orphans.1
         ++ orphan_block (mkPath true ["data"]) Index scenario_orphans.2)
        ++ [LineDeleted Image
              (Sys.delete_files scenario_machine scenario_orphans.1).2.1
              (length scenario_orphans.1);
            LineDeleted Index
              (Sys.delete_files
                 (Sys.delete_files scenario_machine scenario_orphans.1).1
                 scenario_orphans.2).2.1
              (length scenario_orphans.2)],
        (LineDeleteFailed "train" Image
           <$> (Sys.delete_files scenario_machine scenario_orphans.1).2.2)
        ++ (LineDeleteFailed "train" Index
              <$> (Sys.delete_files
                     (Sys.delete_files scenario_machine scenario_orphans.1).1
                     scenario_orphans.2).2.2))).
Proof.
  assert (Sys.scan scenario_machine (mkPath true ["data"])
                   "train" "image" "index"
          = Return (Some (scenario_listing.1, scenario_listing.2))) as H
    by (vm_compute; reflexivity).
  exact (proj1 (process_split_deletes_or_records
                  scenario_machine (mkPath true ["data"])
                  "train" "image" "index" true false _ _ H)).
Defined.

(** C2, as stated, fails on a file that is absent because its path runs
    through a regular file: [os.unlink] raises [ENOTDIR], which
    [missing_ok] does not suppress, so the attempt is recorded as an error
    and not counted as a success. *)
Lemma absent_file_below_a_file_is_an_error :
  nodes (tree scenario_machine) !! (scenario_dir "image" // "a.jpg" // "x")
  = None
  ∧ (Sys.delete_files scenario_machine
       [scenario_dir "image" // "a.jpg" // "x"]).2
    = (0, ["/data/train/image/a.jpg/x: "
           +:+ "[Errno 20] Not a directory: '/data/train/image/a.jpg/x'"]).
Proof. split; vm_compute; reflexivity. Qed.

(** X8.  Deleting what is already gone is a success: when [os.unlink]
    fails with [ENOENT] on every file of the list, [delete_files] counts
    every file as deleted, records no error and returns the state it was
    given. *)
Theorem delete_files_all_missing
    {fs : Type} `{!OS fs} (st : fs) (files : list Path) :
  (∀ f, f ∈ files → ∃ e, os_unlink st f = Raised e ∧ errno e = ENOENT) →
  Sys.delete_files st files = (st, (length files, [])).
Proof. intros Hall. by apply sys_delete_files_missing, Forall_forall. Qed.

Lemma delete_files_all_missing_witness :
  Sys.delete_files scenario_machine
    [scenario_dir "image" // "y.jpg"; scenario_dir "index" // "z.idx"]
  = (scenario_machine, (2, [])).
Proof.
  apply (delete_files_all_missing scenario_machine
           [scenario_dir "image" // "y.jpg"; scenario_dir "index" // "z.idx"]).
  intros f [->| ->%list_elem_of_singleton]%elem_of_cons;
    eexists; (split; [vm_compute; reflexivity|reflexivity]).
Defined.
